(** * PyBase, [utils/deployment.py]: a shallow embedding and its properties

    The script is glue code over the operating system: it reads environment
    variables, spawns [git], walks a directory tree changing permission
    bits, writes a [.env] file and posts a report over HTTP.  The embedding
    keeps the source's functions and their control flow, written in a small
    state-and-exception monad over an explicit [world]:

    - Python [str] is [string]; a character is a code point below 256;
    - a [dict] with a fixed set of keys is an association list of values;
    - the [logs] argument is a reference to a list object in the heap;
    - the file system is a tree of directories and regular files (no links);
      each node carries its permission bits, and the world tells as whom
      the process faces each node (owner, group, others) and whether it
      runs as the superuser, so that calls fail where the kernel refuses;
    - what lies outside the interpreter (the programs that are spawned, the
      HTTP server) is a pair of oracles carried by the world, and every
      call of [subprocess.run] is recorded with its outcome.

    [load_config] and the entry flow under [__main__] are embedded for
    configurations of the expected form (see [config]); the YAML parser is
    a parameter. *)

From Stdlib Require Import ZArith Ascii String List Bool.
From stdpp Require Import base option list strings gmap.

Local Open Scope string_scope.
Local Open Scope Z_scope.
Local Open Scope list_scope.
Local Set Warnings "-register-all".

(** ** Python strings *)

Module str.

(** [str.isspace] on one character, for the code points below 256:
    TAB..CR, FS..US, SPACE, NEL and NBSP. *)
Definition isspace (c : ascii) : bool :=
  let n := N_of_ascii c in
  ((9 <=? n) && (n <=? 13) || (28 <=? n) && (n <=? 32)
   || (n =? 133) || (n =? 160))%N.

Fixpoint lstrip (s : string) : string :=
  match s with
  | String c s' => if isspace c then lstrip s' else s
  | EmptyString => EmptyString
  end.

Fixpoint rstrip (s : string) : string :=
  match s with
  | String c s' =>
      match rstrip s' with
      | EmptyString => if isspace c then EmptyString else String c EmptyString
      | r => String c r
      end
  | EmptyString => EmptyString
  end.

(** [s.strip()] *)
Definition strip (s : string) : string := rstrip (lstrip s).

(** [s.startswith(p)] *)
Fixpoint startswith (s p : string) : bool :=
  match p, s with
  | EmptyString, _ => true
  | String a p', String b s' => Ascii.eqb a b && startswith s' p'
  | String _ _, EmptyString => false
  end.

(** [s.endswith(suffix)] *)
Fixpoint endswith (s suffix : string) : bool :=
  String.eqb s suffix
  || match s with
     | String _ s' => endswith s' suffix
     | EmptyString => false
     end.

(** [sep in s] for a one-character [sep] *)
Fixpoint contains (sep : ascii) (s : string) : bool :=
  match s with
  | String c s' => Ascii.eqb c sep || contains sep s'
  | EmptyString => false
  end.

(** [s.split(sep)] for a one-character [sep] *)
Fixpoint split (sep : ascii) (s : string) : list string :=
  match s with
  | EmptyString => [EmptyString]
  | String c s' =>
      if Ascii.eqb c sep then EmptyString :: split sep s'
      else match split sep s' with
           | x :: xs => String c x :: xs
           | [] => [String c EmptyString]
           end
  end.

(** Truth value of a string: the empty string is false. *)
Definition truthy (s : string) : bool := negb (String.eqb s "").

(** Strings made of white space only; strings that begin or end with a
    white space character. *)
Fixpoint all_space (s : string) : bool :=
  match s with
  | String c s' => isspace c && all_space s'
  | EmptyString => true
  end.

Definition starts_with_space (s : string) : bool :=
  match s with
  | String c _ => isspace c
  | EmptyString => false
  end.

Fixpoint ends_with_space (s : string) : bool :=
  match s with
  | EmptyString => false
  | String c EmptyString => isspace c
  | String _ s' => ends_with_space s'
  end.

End str.

(** Truth value of an [Optional[str]]: [None] and [""] are false. *)
Definition truthy_opt (o : option string) : bool :=
  match o with
  | Some s => str.truthy s
  | None => false
  end.

(** ** Python values, exceptions and library functions *)

(** The values stored in the result dictionaries of [execute_command]. *)
Inductive value :=
| VBool (b : bool)
| VStr (s : string).

(** A [dict] with string keys, in insertion order. *)
Definition dict := list (string * value).

Fixpoint dict_get (k : string) (d : dict) : option value :=
  match d with
  | (k', v) :: d' => if String.eqb k' k then Some v else dict_get k d'
  | [] => None
  end.

Definition value_truthy (v : value) : bool :=
  match v with
  | VBool b => b
  | VStr s => str.truthy s
  end.

(** A decoded JSON document (what [response.json()] returns) and the body
    sent by [requests.post(..., json=payload)]. *)
Inductive json_value :=
| JNull
| JBool (b : bool)
| JNumber (literal : string)
| JString (s : string)
| JArray (items : list json_value)
| JObject (members : list (string * json_value)).

Definition json_of_opt (o : option string) : json_value :=
  match o with
  | Some s => JString s
  | None => JNull
  end.

Inductive exn :=
| CalledProcessError (cmd : list string) (returncode : Z) (output stderr : string)
| RequestException (msg : string)
| OSError (msg : string)
| KeyError (key : string)
| ValueError (msg : string)
| IndexError (msg : string)
| UnicodeDecodeError (msg : string).

(** Functions of the Python library whose text is not part of the script:
    [str(e)] for a [CalledProcessError] built from a command and an exit
    status, and [json.dumps(_, indent=4)]. *)
Class Library := {
  CalledProcessError_str : list string → Z → string;
  json_dumps_indent4 : json_value → string
}.

(** [str(e)]; the other exceptions carry their message. *)
Definition exn_str `{Library} (e : exn) : string :=
  match e with
  | CalledProcessError cmd rc _ _ => CalledProcessError_str cmd rc
  | RequestException msg | OSError msg | KeyError msg | ValueError msg
  | IndexError msg | UnicodeDecodeError msg => msg
  end.

(** ** The world *)

(** Permission bits. *)
Definition S_IRUSR : Z := 256.
Definition S_IWUSR : Z := 128.
Definition S_IXUSR : Z := 64.
Definition S_IRGRP : Z := 32.
Definition S_IWGRP : Z := 16.
Definition S_IXGRP : Z := 8.
Definition S_IROTH : Z := 4.
Definition S_IWOTH : Z := 2.
Definition S_IXOTH : Z := 1.

(** The literals [0o444], [0o777], [0o666] and the mask [0o7777] of the
    bits [chmod] can set. *)
Definition o444 : Z := 292.
Definition o777 : Z := 511.
Definition o666 : Z := 438.
Definition o7777 : Z := 4095.

(** Directories and regular files; [mode] holds the permission bits. *)
Inductive node :=
| File (name : string) (mode : Z) (data : string)
| Dir (name : string) (mode : Z) (entries : list node).

Definition node_name (n : node) : string :=
  match n with
  | File name _ _ | Dir name _ _ => name
  end.

Definition is_dir (n : node) : bool :=
  match n with
  | Dir _ _ _ => true
  | File _ _ _ => false
  end.

(** How a call of [subprocess.run(command, check=True, capture_output=True,
    text=True)] ended.  The process ran to its end and what it wrote was
    decoded as text; or it could not be started (e.g. the executable is
    missing: an [OSError]); or it was started and what it wrote is not
    text in the encoding of the locale (a [UnicodeDecodeError]); or no
    process was started at all because the argument vector is empty (an
    [IndexError]) or holds a string that cannot be handed to a program,
    such as one with a NUL character (a [ValueError]). *)
Inductive proc_outcome :=
| Exited (returncode : Z) (stdout stderr : string)
| SpawnError (msg : string)
| NotText (msg : string)
| NoProgram (msg : string)
| BadArgument (msg : string).

(** A process was started. *)
Definition started (o : proc_outcome) : bool :=
  match o with
  | Exited _ _ _ | NotText _ => true
  | SpawnError _ | NoProgram _ | BadArgument _ => false
  end.

(** What a process asks of a node: to read it, to write to it or, for a
    directory, to search it (the execute bit); the names are those of
    [os.access]. *)
Inductive access := R_OK | W_OK | X_OK.

(** As whom the process faces a node: as its owner, as a member of its
    group, or as anyone else. *)
Inductive class := USR | GRP | OTH.

(** The bit of a mode that decides. *)
Definition permission_bit (c : class) (a : access) : Z :=
  match c, a with
  | USR, R_OK => S_IRUSR | USR, W_OK => S_IWUSR | USR, X_OK => S_IXUSR
  | GRP, R_OK => S_IRGRP | GRP, W_OK => S_IWGRP | GRP, X_OK => S_IXGRP
  | OTH, R_OK => S_IROTH | OTH, W_OK => S_IWOTH | OTH, X_OK => S_IXOTH
  end.

Inductive res (A : Type) :=
| Ok (a : A)
| Raise (e : exn).
Arguments Ok {A} a.
Arguments Raise {A} e.

(** A [requests.Response]: the status code and what [.json()] does. *)
Record response := Response {
  status_code : Z;
  json_result : res json_value
}.

(** A reference to a Python list object. *)
Definition loc := nat.

Record world := World {
  environ : gmap string string;            (* os.environ *)
  fs : node;                               (* the root directory *)
  umask : Z;
  superuser : bool;                        (* the process runs as root *)
  class_at : list string → class;          (* as whom it faces the node at a path *)
  spawned : list (list string * proc_outcome); (* calls of subprocess.run, oldest first *)
  posted : list (string * json_value);     (* HTTP POST requests sent *)
  console : list string;                   (* what print() wrote, one entry per call *)
  heap : loc → list string;                (* the list objects *)
  (* the behaviour of what is outside the interpreter *)
  programs : list (list string * proc_outcome) → list string → node → proc_outcome * node;
  network : list (string * json_value) → string → json_value → res response
}.

Definition with_fs (f : node) (w : world) : world :=
  World (environ w) f (umask w) (superuser w) (class_at w) (spawned w) (posted w)
        (console w) (heap w) (programs w) (network w).

Definition with_class (c : list string → class) (w : world) : world :=
  World (environ w) (fs w) (umask w) (superuser w) c (spawned w) (posted w)
        (console w) (heap w) (programs w) (network w).

Definition with_spawned (l : list (list string * proc_outcome)) (w : world) : world :=
  World (environ w) (fs w) (umask w) (superuser w) (class_at w) l (posted w)
        (console w) (heap w) (programs w) (network w).

Definition with_posted (l : list (string * json_value)) (w : world) : world :=
  World (environ w) (fs w) (umask w) (superuser w) (class_at w) (spawned w) l
        (console w) (heap w) (programs w) (network w).

Definition with_console (l : list string) (w : world) : world :=
  World (environ w) (fs w) (umask w) (superuser w) (class_at w) (spawned w)
        (posted w) l (heap w) (programs w) (network w).

Definition with_heap (h : loc → list string) (w : world) : world :=
  World (environ w) (fs w) (umask w) (superuser w) (class_at w) (spawned w)
        (posted w) (console w) h (programs w) (network w).

(** The permission check of the kernel for the node at [p], whose mode is
    [mode]: the superuser passes; for anyone else one bit of the mode
    decides. *)
Definition permits (w : world) (a : access) (p : list string) (mode : Z) : bool :=
  superuser w || negb (Z.land mode (permission_bit (class_at w p) a) =? 0).

(** Changing the mode of a node is for its owner and for the superuser. *)
Definition may_chmod (w : world) (p : list string) : bool :=
  superuser w
  || match class_at w p with
     | USR => true
     | GRP | OTH => false
     end.

(** ** The monad: a computation changes the world and returns or raises;
    the changes made before an exception is raised are kept. *)

Definition M (A : Type) : Type := world → res A * world.

Definition ret {A} (a : A) : M A := fun w => (Ok a, w).

Definition raise {A} (e : exn) : M A := fun w => (Raise e, w).

Definition bind {A B} (m : M A) (k : A → M B) : M B :=
  fun w =>
    match m w with
    | (Ok a, w') => k a w'
    | (Raise e, w') => (Raise e, w')
    end.

Notation "'let*' x ':=' m 'in' k" := (bind m (fun x => k))
  (at level 10, x name, m at level 100, k at level 200).
Notation "m ;; k" := (bind m (fun _ => k))
  (at level 100, k at level 200, right associativity).

(** [try: m except C as e: h e], where [handler e] is [Some] exactly for
    the exceptions of class [C]. *)
Definition try_except {A} (m : M A) (handler : exn → option (M A)) : M A :=
  fun w =>
    match m w with
    | (Ok a, w') => (Ok a, w')
    | (Raise e, w') =>
        match handler e with
        | Some h => h w'
        | None => (Raise e, w')
        end
    end.

(** [for x in xs: body x] *)
Fixpoint for_each {A} (xs : list A) (body : A → M unit) : M unit :=
  match xs with
  | [] => ret tt
  | x :: xs' => body x ;; for_each xs' body
  end.

Module builtins.

(** [print(s)] *)
Definition print (s : string) : M unit :=
  fun w => (Ok tt, with_console (console w ++ [s]) w).

(** [l.append(x)] on the list object at [l] *)
Definition list_append (l : loc) (x : string) : M unit :=
  fun w =>
    (Ok tt,
     with_heap (fun l' => if Nat.eqb l' l then heap w l ++ [x] else heap w l') w).

(** [d[k]] *)
Definition getitem (d : dict) (k : string) : M value :=
  match dict_get k d with
  | Some v => ret v
  | None => raise (KeyError k)
  end.

End builtins.

(** ** The file system: a tree addressed by paths *)

Module vfs.

(** The components of a path: the pieces between slashes, without the
    empty ones and without ["."].  Paths are resolved from the root
    directory, which stands for the working directory as well; [".."] and
    links are not modelled, so that the statements below speak of paths
    made of names of entries. *)
Definition skipped (c : string) : bool :=
  String.eqb c "" || String.eqb c ".".

Definition components (p : string) : list string :=
  List.filter (fun c => negb (skipped c)) (str.split "/" p).

(** The empty path names nothing. *)
Definition resolve (p : string) : option (list string) :=
  if String.eqb p "" then None else Some (components p).

Fixpoint find_entry (c : string) (es : list node) : option node :=
  match es with
  | [] => None
  | e :: es' => if String.eqb (node_name e) c then Some e else find_entry c es'
  end.

Fixpoint lookup_at (cs : list string) (n : node) : option node :=
  match cs with
  | [] => Some n
  | c :: cs' =>
      match n with
      | Dir _ _ es =>
          match find_entry c es with
          | Some e => lookup_at cs' e
          | None => None
          end
      | File _ _ _ => None
      end
  end.

Fixpoint alter_entry (c : string) (g : node → option node) (es : list node)
  : option (list node) :=
  match es with
  | [] => None
  | e :: es' =>
      if String.eqb (node_name e) c
      then match g e with
           | Some e' => Some (e' :: es')
           | None => None
           end
      else match alter_entry c g es' with
           | Some es'' => Some (e :: es'')
           | None => None
           end
  end.

(** Replace the node at [cs] by its image under [f]; [None] when the path
    names nothing or [f] refuses. *)
Fixpoint alter_at (f : node → option node) (cs : list string) (n : node)
  : option node :=
  match cs with
  | [] => f n
  | c :: cs' =>
      match n with
      | Dir name m es =>
          match alter_entry c (alter_at f cs') es with
          | Some es' => Some (Dir name m es')
          | None => None
          end
      | File _ _ _ => None
      end
  end.

(** Search permission on the way to [cs] from the node [n], itself found
    at [pre]: every directory passed through lets the process search it
    ([search] is the check, given the path and the mode of a directory).
    Where the way ends early, at a missing name or at a regular file, the
    directories before that point are the ones that count. *)
Fixpoint passable (search : list string → Z → bool) (pre cs : list string)
    (n : node) : bool :=
  match cs with
  | [] => true
  | c :: cs' =>
      match n with
      | Dir _ m es =>
          search pre m
          && match find_entry c es with
             | Some e => passable search (pre ++ [c]) cs' e
             | None => true
             end
      | File _ _ _ => true
      end
  end.

Definition set_mode (mode : Z) (n : node) : option node :=
  match n with
  | File name _ data => Some (File name mode data)
  | Dir name _ es => Some (Dir name mode es)
  end.

Definition append_data (s : string) (n : node) : option node :=
  match n with
  | File name mode data => Some (File name mode (data +:+ s))
  | Dir _ _ _ => None
  end.

(** What [open(path, "w")] does in the directory that is to hold [name]:
    an existing regular file is truncated, if the process may write to it
    ([may_write], given the mode of the file); a missing one is created
    with mode [0o666 & ~umask], if the process may write to the directory
    ([may_create], given the mode of the directory); a directory of that
    name is an error. *)
Definition create_or_truncate (name : string) (mask : Z)
    (may_create may_write : Z → bool) (d : node) : option node :=
  match d with
  | Dir dn dm es =>
      match find_entry name es with
      | Some (File _ m _) =>
          if may_write m then
            match alter_entry name (fun _ => Some (File name m "")) es with
            | Some es' => Some (Dir dn dm es')
            | None => None
            end
          else None
      | Some (Dir _ _ _) => None
      | None =>
          if may_create dm
          then Some (Dir dn dm (es ++ [File name (Z.land o666 (Z.lnot mask)) ""]))
          else None
      end
  | File _ _ _ => None
  end.

(** [y] is [x] with another mode or other contents: the name, the kind and
    the entries are the same. *)
Definition same_shape (x y : node) : Prop :=
  match x, y with
  | File a _ _, File b _ _ => a = b
  | Dir a _ es, Dir b _ es' => a = b ∧ es = es'
  | _, _ => False
  end.

(** Mode and contents of the regular file at [cs], if there is one. *)
Definition file_at (cs : list string) (n : node) : option (Z * string) :=
  match lookup_at cs n with
  | Some (File _ mode data) => Some (mode, data)
  | _ => None
  end.

Definition dirnames (es : list node) : list string :=
  map node_name (List.filter is_dir es).

Definition filenames (es : list node) : list string :=
  map node_name (List.filter (fun e => negb (is_dir e)) es).

(** A name a directory entry can have. *)
Definition plain (name : string) : bool :=
  negb (String.eqb name "") && negb (String.eqb name ".")
  && negb (String.eqb name "..") && negb (str.contains "/" name).

(** Well-formed trees: in every directory the names are plain and no
    name occurs twice. *)
Fixpoint wf (n : node) : bool :=
  match n with
  | File _ _ _ => true
  | Dir _ _ es =>
      bool_decide (NoDup (map node_name es))
      && forallb (fun e => plain (node_name e) && wf e) es
  end.

(** The tree without the modes of its files: what is left are the names,
    the structure, the contents and the modes of the directories. *)
Fixpoint forget_file_modes (n : node) : node :=
  match n with
  | File name _ data => File name 0 data
  | Dir name mode es => Dir name mode (map forget_file_modes es)
  end.

End vfs.

Module os.

(** [os.getenv(key)] *)
Definition getenv (key : string) : M (option string) :=
  fun w => (Ok (environ w !! key), w).

(** [os.path.join(a, b)] (posixpath) *)
Definition path_join (a b : string) : string :=
  if str.startswith b "/" then b
  else if negb (str.truthy a) || str.endswith a "/" then a +:+ b
  else a +:+ "/" +:+ b.

(** The process can search every directory on the way to [cs]. *)
Definition reaches (w : world) (cs : list string) : bool :=
  vfs.passable (permits w X_OK) [] cs (fs w).

(** [os.path.exists(p)]: whether [stat] succeeds. *)
Definition path_exists (p : string) : M bool :=
  fun w =>
    (Ok match vfs.resolve p with
        | Some cs => reaches w cs && bool_decide (is_Some (vfs.lookup_at cs (fs w)))
        | None => false
        end, w).

(** What [os.walk(top)] yields at a node found at the path [top], whose
    components are [here].  A directory the process may read is listed:
    it comes first, and then, when the process may search it, its
    sub-directories in the order of the listing, each walked the same way.
    A directory that cannot be listed is passed over without an error (the
    script gives no [onerror]), and so is a [top] that is not a directory.
    The kind of an entry is the one the listing gives. *)
Fixpoint walk_from (may : access → list string → Z → bool) (top : string)
    (here : list string) (n : node) : list (string * list string * list string) :=
  match n with
  | File _ _ _ => []
  | Dir _ m es =>
      if may R_OK here m then
        (top, vfs.dirnames es, vfs.filenames es)
        :: (if may X_OK here m
            then flat_map (fun e => walk_from may (path_join top (node_name e))
                                      (here ++ [node_name e]) e) es
            else [])
      else []
  end.

(** [os.walk(top)].  The generator is run to its end at once: the bodies
    of the loops of this script change modes of regular files and a list
    object only, which no listing depends on (lemma [walk_from_forget]
    below). *)
Definition walk (top : string) : M (list (string * list string * list string)) :=
  fun w =>
    (Ok match vfs.resolve top with
        | Some cs =>
            if reaches w cs then
              match vfs.lookup_at cs (fs w) with
              | Some d => walk_from (permits w) top cs d
              | None => []
              end
            else []
        | None => []
        end, w).

(** [os.chmod(path, mode)]: the path must lead to a node, through
    directories the process can search, and the process must own the node
    or be the superuser. *)
Definition chmod (path : string) (mode : Z) : M unit :=
  fun w =>
    match vfs.resolve path with
    | Some cs =>
        if reaches w cs then
          match vfs.alter_at (vfs.set_mode (Z.land mode o7777)) cs (fs w) with
          | Some f' =>
              if may_chmod w cs then (Ok tt, with_fs f' w)
              else (Raise (OSError "Operation not permitted"), w)
          | None => (Raise (OSError "No such file or directory"), w)
          end
        else (Raise (OSError "Permission denied"), w)
    | None => (Raise (OSError "No such file or directory"), w)
    end.

End os.

(** Text files opened for writing. *)
Module io.

(** An open file: the components of the path it was opened at. *)
Definition file := list string.

(** The world once the process has opened [cs] for writing and the tree
    has become [f']: a file that was not there before is the process's
    own. *)
Definition opened (cs : list string) (f' : node) (w : world) : world :=
  match vfs.file_at cs (fs w) with
  | Some _ => with_fs f' w
  | None =>
      with_class (fun p => if bool_decide (p = cs) then USR else class_at w p)
                 (with_fs f' w)
  end.

(** [open(path, "w")]: the directories on the way must let the process
    search them; a regular file that is there must let it write, and
    where there is none the directory must. *)
Definition open_w (path : string) : M file :=
  fun w =>
    match vfs.resolve path with
    | Some cs =>
        match rev cs with
        | name :: rparent =>
            if os.reaches w cs then
              match vfs.alter_at
                      (vfs.create_or_truncate name (umask w)
                         (permits w W_OK (rev rparent)) (permits w W_OK cs))
                      (rev rparent) (fs w) with
              | Some f' => (Ok cs, opened cs f' w)
              | None => (Raise (OSError "cannot open for writing"), w)
              end
            else (Raise (OSError "Permission denied"), w)
        | [] => (Raise (OSError "Is a directory"), w)
        end
    | None => (Raise (OSError "No such file or directory"), w)
    end.

(** [f.write(s)]; the text reaches the file at once. *)
Definition write (f : file) (s : string) : M unit :=
  fun w =>
    match vfs.alter_at (vfs.append_data s) f (fs w) with
    | Some f' => (Ok tt, with_fs f' w)
    | None => (Raise (OSError "Bad file descriptor"), w)
    end.

Definition close (f : file) : M unit := ret tt.

(** [with open(path, "w") as f: body f] closes the file however the body
    ends. *)
Definition with_open_w {A} (path : string) (body : file → M A) : M A :=
  let* f := open_w path in
  fun w =>
    match body f w with
    | (r, w') =>
        match close f w' with
        | (Ok _, w'') => (r, w'')
        | (Raise e, w'') => (Raise e, w'')
        end
    end.

(** [open(path, "r")] followed by reading the text to its end: the file
    must let the process read it. *)
Definition read_text (path : string) : M string :=
  fun w =>
    match vfs.resolve path with
    | Some cs =>
        if os.reaches w cs then
          match vfs.file_at cs (fs w) with
          | Some (m, data) =>
              if permits w R_OK cs m then (Ok data, w)
              else (Raise (OSError "Permission denied"), w)
          | None => (Raise (OSError "cannot open for reading"), w)
          end
        else (Raise (OSError "Permission denied"), w)
    | None => (Raise (OSError "No such file or directory"), w)
    end.

End io.

Module subprocess.

Record CompletedProcess := {
  args : list string;
  returncode : Z;
  stdout : string;
  stderr : string
}.

(** [subprocess.run(command, check=True, capture_output=True, text=True)].
    How the call ends, and what the program does to the files, is the
    answer of the world; the call is recorded with it.  Where no process
    ran the files are as before. *)
Definition run (command : list string) : M CompletedProcess :=
  fun w =>
    let '(o, f') := programs w (spawned w) command (fs w) in
    let w0 := with_spawned (spawned w ++ [(command, o)]) w in
    let w' := if started o then with_fs f' w0 else w0 in
    match o with
    | Exited rc out err =>
        if rc =? 0
        then (Ok {| args := command; returncode := rc; stdout := out; stderr := err |}, w')
        else (Raise (CalledProcessError command rc out err), w')
    | SpawnError msg => (Raise (OSError msg), w')
    | NotText msg => (Raise (UnicodeDecodeError msg), w')
    | NoProgram msg => (Raise (IndexError msg), w')
    | BadArgument msg => (Raise (ValueError msg), w')
    end.

End subprocess.

Module requests.

(** [requests.post(url, json=payload)] *)
Definition post (url : string) (payload : json_value) : M response :=
  fun w =>
    let w' := with_posted (posted w ++ [(url, payload)]) w in
    match network w (posted w) url payload with
    | Ok r => (Ok r, w')
    | Raise e => (Raise e, w')
    end.

(** [response.json()] *)
Definition json (r : response) : M json_value :=
  match json_result r with
  | Ok j => ret j
  | Raise e => raise e
  end.

End requests.

(** ** The configuration *)

(** What [yaml.safe_load] returns for a configuration file of the expected
    form: a [dict] whose scalar entries are strings, and whose [env] entry,
    when there is one, is a [dict] from strings to strings, kept here as
    the sequence of its items.  A key that is absent and a key whose value
    is null look the same to [config.get(key)]. *)
Record config := Config {
  scalars : gmap string string;
  env_section : option (list (string * string))
}.

(** [yaml.safe_load] on the text of a file: the parser is not part of the
    script. *)
Class YamlLibrary := {
  yaml_safe_load : string → res config
}.

(** [config.get(key, default)] *)
Definition config_get (c : config) (key default : string) : string :=
  match scalars c !! key with
  | Some v => v
  | None => default
  end.

(** [config[key]] *)
Definition config_getitem (c : config) (key : string) : M string :=
  match scalars c !! key with
  | Some v => ret v
  | None => raise (KeyError key)
  end.

(** ** The script *)

Module deployment.

(** The line feed written at the end of each line. *)
Definition nl : string := String (ascii_of_nat 10) EmptyString.

(** [os.getenv("USERNAME") or os.getenv("USER")]: the second lookup is
    made only when the first value is false. *)
Definition get_username : M (option string) :=
  let* u := os.getenv "USERNAME" in
  if truthy_opt u then ret u else os.getenv "USER".

Section WithLibrary.
Context `{Library}.

Definition deploy_repo (username : option string)
    (server_url repo_url branch : string) (commit_hash : option string)
    (local_dir exclude_ext : string) : M unit :=
  let payload :=
    JObject [("username", json_of_opt username);
             ("repo_url", JString repo_url);
             ("branch", JString branch);
             ("commit_hash", json_of_opt commit_hash);
             ("local_dir", JString local_dir);
             ("exclude_ext", JString exclude_ext)] in
  try_except
    (let* response := requests.post (server_url +:+ "/deploy") payload in
     let* response_data := requests.json response in
     (if status_code response =? 200
      then builtins.print "Deployment successful!"
      else builtins.print "Deployment failed!") ;;
     builtins.print (json_dumps_indent4 response_data))
    (fun e =>
       match e with
       | RequestException _ => Some (builtins.print ("Error: " +:+ exn_str e))
       | _ => None
       end).

Definition execute_command (command : list string) : M dict :=
  try_except
    (let* result := subprocess.run command in
     ret [("success", VBool true);
          ("output", VStr (str.strip (subprocess.stdout result)))])
    (fun e =>
       match e with
       | CalledProcessError _ _ _ e_stderr =>
           Some (ret [("success", VBool false);
                      ("error", VStr (if str.truthy e_stderr
                                      then str.strip e_stderr
                                      else exn_str e))])
       | _ => None
       end).

Definition clone_or_update_repo (repo_url branch : string)
    (commit_hash : option string) (local_dir : string) (logs : loc) : M dict :=
  let* present := os.path_exists local_dir in
  let* response :=
    (if negb present then
       builtins.list_append logs
         ("Cloning repository " +:+ repo_url +:+ " into " +:+ local_dir) ;;
       execute_command ["git"; "clone"; "-b"; branch; repo_url; local_dir]
     else
       builtins.list_append logs
         "Repository already exists. Fetching latest changes." ;;
       execute_command ["git"; "-C"; local_dir; "fetch"]) in
  let* ok := builtins.getitem response "success" in
  if negb (value_truthy ok) then ret response
  else
    (* [if commit_hash:] holds for a string that is not empty *)
    let pull_branch :=
      builtins.list_append logs
        ("Pulling latest commit from branch " +:+ branch) ;;
      let* response := execute_command ["git"; "-C"; local_dir; "checkout"; branch] in
      let* ok := builtins.getitem response "success" in
      if value_truthy ok
      then execute_command ["git"; "-C"; local_dir; "pull"; "origin"; branch]
      else ret response in
    match commit_hash with
    | Some h =>
        if str.truthy h then
          builtins.list_append logs ("Checking out specific commit " +:+ h) ;;
          execute_command ["git"; "-C"; local_dir; "checkout"; h]
        else pull_branch
    | None => pull_branch
    end.

End WithLibrary.

Definition set_permission_readonly (local_dir exclude_ext : string) (logs : loc)
  : M unit :=
  let* triples := os.walk local_dir in
  for_each triples (fun '(root, _, files) =>
    for_each files (fun file =>
      if negb (str.endswith file exclude_ext) then
        let file_path := os.path_join root file in
        os.chmod file_path o444 ;;
        builtins.list_append logs ("Set " +:+ file_path +:+ " to read-only.")
      else ret tt)).

Definition set_permission_full (local_dir : string) (logs : loc) : M unit :=
  let* triples := os.walk local_dir in
  for_each triples (fun '(root, _, files) =>
    for_each files (fun file =>
      let file_path := os.path_join root file in
      os.chmod file_path o777 ;;
      builtins.list_append logs ("Set " +:+ file_path +:+ " to full permission."))).

(** [env_config] is the sequence [env_config.items()] runs through. *)
Definition create_env_file (local_dir : string) (env_config : list (string * string))
  : M unit :=
  let file_path := os.path_join local_dir ".env" in
  builtins.print ("Creating .env file at " +:+ file_path) ;;
  io.with_open_w file_path (fun env_file =>
    for_each env_config (fun '(key, value) =>
      io.write env_file (key +:+ " = '" +:+ value +:+ "'" +:+ nl))).

Definition load_config `{YamlLibrary} (config_path : string) : M config :=
  let* present := os.path_exists config_path in
  if negb present then
    raise (OSError ("Configuration file " +:+ config_path +:+ " not found."))
  else
    let* text := io.read_text config_path in
    match yaml_safe_load text with
    | Ok c => ret c
    | Raise e => raise e
    end.

(** The statements under [if __name__ == "__main__":]. *)
Definition main `{Library} `{YamlLibrary} : M unit :=
  let* username := get_username in
  let server_url := "http://localhost:9000" in
  let* config := load_config "deployment.yaml" in
  let local_dir := config_get config "local_dir" "./test" in
  let* repo_url := config_getitem config "repo_url" in
  deploy_repo username server_url repo_url
    (config_get config "branch" "main")
    (scalars config !! "commit_hash")
    local_dir
    (config_get config "exclude_ext" ".ipynb") ;;
  match env_section config with
  | Some env => create_env_file local_dir env
  | None => ret tt
  end.

End deployment.

(** ** Vocabulary of the statements *)

(** The calls of [subprocess.run] made between two worlds, with their
    outcomes. *)
Definition issued (w w' : world) : list (list string * proc_outcome) :=
  drop (length (spawned w)) (spawned w').

(** A process succeeded: it ran and exited with status zero. *)
Definition succeeded (o : proc_outcome) : bool :=
  match o with
  | Exited rc _ _ => rc =? 0
  | SpawnError _ | NotText _ | NoProgram _ | BadArgument _ => false
  end.

(** The git subcommand of an argument vector, with or without [-C dir]. *)
Definition subcommand (argv : list string) : option string :=
  match argv with
  | _ :: "-C" :: _ :: sub :: _ => Some sub
  | _ :: sub :: _ => Some sub
  | _ => None
  end.

(** What [execute_command] returns for a process that ended with [o]. *)
Definition command_result `{Library} (command : list string) (o : proc_outcome)
  : res dict :=
  match o with
  | Exited rc out err =>
      if rc =? 0
      then Ok [("success", VBool true); ("output", VStr (str.strip out))]
      else Ok [("success", VBool false);
               ("error", VStr (if str.truthy err then str.strip err
                               else exn_str (CalledProcessError command rc out err)))]
  | SpawnError msg => Raise (OSError msg)
  | NotText msg => Raise (UnicodeDecodeError msg)
  | NoProgram msg => Raise (IndexError msg)
  | BadArgument msg => Raise (ValueError msg)
  end.

(** The world after [subprocess.run] was called with [command]. *)
Definition after_command (command : list string) (w : world) : world :=
  let '(o, f') := programs w (spawned w) command (fs w) in
  let w0 := with_spawned (spawned w ++ [(command, o)]) w in
  if started o then with_fs f' w0 else w0.

(** What is checked out once the first command succeeded: the commit hash
    when [if commit_hash:] holds, the branch otherwise. *)
Definition checkout_target (branch : string) (commit_hash : option string) : string :=
  match commit_hash with
  | Some h => if str.truthy h then h else branch
  | None => branch
  end.

(** A computation only ever appends to the list objects. *)
Definition appends_only {A} (m : M A) : Prop :=
  ∀ (w : world) (l : loc), heap w l `prefix_of` heap (m w).2 l.

(** The paths a permission sweep changes the mode of, in the order of the
    loops: for each triple of the walk, the files that are not kept back. *)
Definition sweep_targets (keep : string → bool)
    (triples : list (string * list string * list string)) : list string :=
  flat_map (λ '(root, _, files),
              map (os.path_join root) (List.filter (λ f, negb (keep f)) files))
           triples.

(** The first command of the synchroniser and the log entry before it. *)
Definition first_command (present : bool) (repo_url branch local_dir : string)
  : list string :=
  if present then ["git"; "-C"; local_dir; "fetch"]
  else ["git"; "clone"; "-b"; branch; repo_url; local_dir].

Definition first_entry (present : bool) (repo_url local_dir : string) : string :=
  if present then "Repository already exists. Fetching latest changes."
  else "Cloning repository " +:+ repo_url +:+ " into " +:+ local_dir.

(** The commands that follow a successful first command, when they all
    succeed, and the log entry before them. *)
Definition later_commands (branch : string) (commit_hash : option string)
    (local_dir : string) : list (list string) :=
  if truthy_opt commit_hash
  then [["git"; "-C"; local_dir; "checkout"; checkout_target branch commit_hash]]
  else [["git"; "-C"; local_dir; "checkout"; branch];
        ["git"; "-C"; local_dir; "pull"; "origin"; branch]].

Definition later_entry (branch : string) (commit_hash : option string) : string :=
  if truthy_opt commit_hash
  then "Checking out specific commit " +:+ checkout_target branch commit_hash
  else "Pulling latest commit from branch " +:+ branch.

(** The body of the request [deploy_repo] sends. *)
Definition deploy_payload (username : option string) (repo_url branch : string)
    (commit_hash : option string) (local_dir exclude_ext : string) : json_value :=
  JObject [("username", json_of_opt username);
           ("repo_url", JString repo_url);
           ("branch", JString branch);
           ("commit_hash", json_of_opt commit_hash);
           ("local_dir", JString local_dir);
           ("exclude_ext", JString exclude_ext)].

(** A computation leaves a part of the world as it is, however it ends. *)
Definition preserves {A B} (part : world → B) (m : M A) : Prop :=
  ∀ w, part (m w).2 = part w.


(** The line of an entry of the environment file: the key, [ = ], the
    value between single quotes, and the line feed (code point 10) that
    ends the line. *)
Definition env_line (kv : string * string) : string :=
  kv.1 +:+ " = '" +:+ kv.2 +:+ "'" +:+ String (ascii_of_nat 10) EmptyString.

Fixpoint concat_lines (l : list string) : string :=
  match l with
  | [] => ""
  | x :: l' => x +:+ concat_lines l'
  end.

(** The process can list the directory [n], found at [here], and every
    directory below it: each lets it read and search. *)
Fixpoint listable (may : access → list string → Z → bool) (here : list string)
    (n : node) : bool :=
  match n with
  | File _ _ _ => true
  | Dir _ m es =>
      may R_OK here m && may X_OK here m
      && forallb (λ e, listable may (here ++ [node_name e]) e) es
  end.

(** The process may change the mode of every regular file below [n] whose
    name is not kept back ([own] is the check, given the path of a
    file). *)
Fixpoint modes_changeable (own : list string → bool) (keep : string → bool)
    (here : list string) (n : node) : bool :=
  match n with
  | File name _ _ => keep name || own here
  | Dir _ _ es =>
      forallb (λ e, modes_changeable own keep (here ++ [node_name e]) e) es
  end.

(** What a sweep of the directory at [top] that keeps back the names in
    [keep] asks for: the process can search the directories on the way to
    [top], can list [top] and every directory below, and may change the
    mode of the files the sweep is after. *)
Definition can_sweep (w : world) (keep : string → bool) (top : list string) : bool :=
  os.reaches w top
  && match vfs.lookup_at top (fs w) with
     | Some d => listable (permits w) top d
                 && modes_changeable (may_chmod w) keep top d
     | None => false
     end.

(** Two worlds look the same to the permission checks: the trees differ in
    modes of regular files at most, and the process is who it was. *)
Definition same_view (w w' : world) : Prop :=
  vfs.forget_file_modes (fs w') = vfs.forget_file_modes (fs w)
  ∧ superuser w' = superuser w ∧ class_at w' = class_at w.

(** What opening [name] for writing in the directory at [dir] asks for:
    the process can search the directories on the way, [dir] included; a
    regular file of that name lets it write, and where there is no entry of
    that name the directory does. *)
Definition can_write_in (w : world) (dir : list string) (name : string) : bool :=
  os.reaches w (dir ++ [name])
  && match vfs.lookup_at dir (fs w) with
     | Some (Dir _ dm es) =>
         match vfs.find_entry name es with
         | Some (File _ m _) => permits w W_OK (dir ++ [name]) m
         | Some (Dir _ _ _) => false
         | None => permits w W_OK dir dm
         end
     | _ => false
     end.

(** ** Sample worlds *)

Definition demo_library : Library :=
  {| CalledProcessError_str := fun cmd rc =>
       "Command '" +:+ concat_lines cmd +:+ "' returned non-zero exit status";
     json_dumps_indent4 := fun _ => "{}" |}.

(** A root directory holding [test/a.txt], [test/b.ipynb] and two files in
    [test/sub]. *)
Definition demo_root : node :=
  Dir "" 493
    [Dir "test" 493
       [File "a.txt" 420 "A"; File "b.ipynb" 420 "B";
        Dir "sub" 493 [File "c.py" 420 "C"; File "d.ipynb" 384 "D"]]].

(** The process owns every node and is not the superuser; every program
    exits with the status [rc], printing [out] and [err], and leaves the
    files alone; the server answers [reply]. *)
Definition demo_world (rc : Z) (out err : string) (reply : res response) : world :=
  {| environ := {[ "USER" := "alice" ]};
     fs := demo_root;
     umask := 18;
     superuser := false;
     class_at := fun _ => USR;
     spawned := [];
     posted := [];
     console := [];
     heap := fun _ => [];
     programs := fun _ _ f => (Exited rc out err, f);
     network := fun _ _ _ => reply |}.

(** A sample parser, for three texts. *)
Definition demo_yaml : YamlLibrary :=
  {| yaml_safe_load := fun text =>
       if String.eqb text "full"
       then Ok (Config {[ "repo_url" := "url"; "branch" := "dev";
                          "local_dir" := "test" ]}
                       (Some [("KEY", "value")]))
       else if String.eqb text "bare"
       then Ok (Config {[ "repo_url" := "url" ]} None)
       else if String.eqb text "no_url"
       then Ok (Config {[ "branch" := "dev" ]} None)
       else Raise (ValueError "not a configuration") |}.

(** The sample world with a file [deployment.yaml] holding [text] beside
    the directory [test]. *)
Definition demo_configured (text : string) (reply : res response) : world :=
  with_fs (Dir "" 493
             [File "deployment.yaml" 420 text;
              Dir "test" 493 [File "a.txt" 420 "A"]])
          (demo_world 0 "" "" reply).

(** The sample world with a directory [test/locked] that grants nothing to
    anyone. *)
Definition locked_world : world :=
  with_fs (Dir "" 493
             [Dir "test" 493
                [File "a.txt" 420 "A";
                 Dir "locked" 0 [File "e.txt" 420 "E"]]])
          (demo_world 0 "" "" (Raise (OSError ""))).

(** The sample world where [test/b.ipynb] belongs to someone else. *)
Definition foreign_world : world :=
  with_class (fun p => if bool_decide (p = ["test"; "b.ipynb"]) then OTH else USR)
             (demo_world 0 "" "" (Raise (OSError ""))).

(** The sample world where [test] holds a read-only [.env]. *)
Definition read_only_env_world : world :=
  with_fs (Dir "" 493 [Dir "test" 493 [File ".env" 292 "OLD = 'x'"]])
          (demo_world 0 "" "" (Raise (OSError ""))).

(** * Properties *)

(** ** Strings *)

#[local] Arguments String.append !s1 s2 : simpl nomatch.

Lemma append_nil_r (s : string) : s +:+ "" = s.
Proof. induction s as [|c s IH]; simpl; [done | by rewrite IH]. Qed.

Lemma append_assoc (a b c : string) : (a +:+ b) +:+ c = a +:+ (b +:+ c).
Proof. induction a as [|x a IH]; simpl; [done | by rewrite IH]. Qed.

Lemma lstrip_decompose (s : string) :
  ∃ pre, s = pre +:+ str.lstrip s ∧ str.all_space pre = true.
Proof.
  induction s as [|c s [pre [Hs Hpre]]]; simpl.
  - by exists "".
  - destruct (str.isspace c) eqn:Hc.
    + exists (String c pre). simpl. rewrite Hc, Hpre. by rewrite <- Hs.
    + by exists "".
Qed.

Lemma lstrip_tight (s : string) : str.starts_with_space (str.lstrip s) = false.
Proof.
  induction s as [|c s IH]; simpl; [done |].
  destruct (str.isspace c) eqn:Hc; [done | simpl; by rewrite Hc].
Qed.

Lemma rstrip_decompose (s : string) :
  ∃ post, s = str.rstrip s +:+ post ∧ str.all_space post = true.
Proof.
  induction s as [|c s [post [Hs Hpost]]]; simpl.
  - by exists "".
  - destruct (str.rstrip s) as [|a r] eqn:Hr.
    + simpl in Hs. destruct (str.isspace c) eqn:Hc.
      * exists (String c post). simpl. rewrite Hc, Hpost. by rewrite <- Hs.
      * exists post. simpl. split; [by rewrite <- Hs | done].
    + exists post. simpl in *. split; [| done]. by rewrite <- Hs.
Qed.

Lemma rstrip_tight (s : string) : str.ends_with_space (str.rstrip s) = false.
Proof.
  induction s as [|c s IH]; simpl; [done |].
  destruct (str.rstrip s) as [|a r] eqn:Hr.
  - destruct (str.isspace c) eqn:Hc; simpl; [done | by rewrite Hc].
  - exact IH.
Qed.

Lemma rstrip_keeps_head (s : string) :
  str.starts_with_space s = false → str.starts_with_space (str.rstrip s) = false.
Proof.
  destruct s as [|c s]; simpl; [done |]. intros Hc.
  destruct (str.rstrip s); [rewrite Hc |]; simpl; by rewrite ?Hc.
Qed.

(** [strip] removes white space at both ends and nothing else. *)
Lemma strip_decompose (s : string) :
  ∃ pre post, s = pre +:+ str.strip s +:+ post
              ∧ str.all_space pre = true ∧ str.all_space post = true.
Proof.
  destruct (lstrip_decompose s) as [pre [Hs Hpre]].
  destruct (rstrip_decompose (str.lstrip s)) as [post [Hl Hpost]].
  exists pre, post. unfold str.strip. by rewrite <- Hl.
Qed.

Lemma strip_tight (s : string) :
  str.starts_with_space (str.strip s) = false
  ∧ str.ends_with_space (str.strip s) = false.
Proof.
  unfold str.strip. split.
  - apply rstrip_keeps_head, lstrip_tight.
  - apply rstrip_tight.
Qed.

Lemma truthy_false (s : string) : str.truthy s = false ↔ s = "".
Proof.
  unfold str.truthy. destruct (String.eqb_spec s ""); simpl; split; congruence.
Qed.

Lemma truthy_true (s : string) : str.truthy s = true ↔ s ≠ "".
Proof.
  unfold str.truthy. destruct (String.eqb_spec s ""); simpl; split; congruence.
Qed.

(** ** The user name *)

(** C10: [get_username] returns the value of USERNAME when it is set and
    not empty; when USERNAME is unset or empty it returns whatever the
    lookup of USER gives, which is [None] when USER is absent.  The world
    is left as it was. *)
Theorem get_username_spec (w : world) :
  (∀ u, environ w !! "USERNAME" = Some u → u ≠ "" →
        deployment.get_username w = (Ok (Some u), w))
  ∧ (environ w !! "USERNAME" = None ∨ environ w !! "USERNAME" = Some "" →
     deployment.get_username w = (Ok (environ w !! "USER"), w)).
Proof.
  unfold deployment.get_username, bind, os.getenv, ret. split.
  - intros u Hu Hne. rewrite Hu. simpl.
    apply truthy_true in Hne. by rewrite Hne.
  - intros [Hu | Hu]; by rewrite Hu.
Qed.

Lemma get_username_spec_witness :
  deployment.get_username (demo_world 0 "" "" (Raise (OSError "")))
  = (Ok (Some "alice"), demo_world 0 "" "" (Raise (OSError ""))).
Proof.
  apply (proj2 (get_username_spec (demo_world 0 "" "" (Raise (OSError ""))))).
  left. reflexivity.
Defined.

(** ** The command runner *)

Section CommandRunner.
Context `{Library}.

Lemma execute_command_eq (command : list string) (w : world) :
  deployment.execute_command command w
  = (command_result command (programs w (spawned w) command (fs w)).1,
     after_command command w).
Proof.
  unfold deployment.execute_command, try_except, bind, subprocess.run,
    after_command, command_result.
  destruct (programs w (spawned w) command (fs w)) as [[rc out err| | | |] f'];
    simpl; [destruct (rc =? 0) | ..]; reflexivity.
Qed.

Lemma after_command_heap (command : list string) (w : world) :
  heap (after_command command w) = heap w.
Proof.
  unfold after_command.
  by destruct (programs w (spawned w) command (fs w)) as [[] ?].
Qed.

(** C5: when the process exits with status zero, [execute_command]
    returns the success record with the trimmed standard output; when it
    exits with another status, it returns the failure record with the
    trimmed standard error, or with [str(e)] when the standard error is
    empty. *)
Theorem execute_command_spec (command : list string) (w : world)
    (rc : Z) (out err : string) (f' : node) :
  programs w (spawned w) command (fs w) = (Exited rc out err, f') →
  (rc = 0 →
   (deployment.execute_command command w).1
   = Ok [("success", VBool true); ("output", VStr (str.strip out))])
  ∧ (rc ≠ 0 →
     (deployment.execute_command command w).1
     = Ok [("success", VBool false);
           ("error", VStr (if String.eqb err "" 
                           then exn_str (CalledProcessError command rc out err)
                           else str.strip err))]).
Proof.
  intros Hp. rewrite execute_command_eq, Hp. simpl. split.
  - intros ->. reflexivity.
  - intros Hrc. apply Z.eqb_neq in Hrc. rewrite Hrc.
    unfold str.truthy. by destruct (String.eqb err "").
Qed.

End CommandRunner.

Lemma execute_command_spec_witness :
  (@deployment.execute_command demo_library ["git"; "status"]
     (demo_world 0 "  clean " "" (Raise (OSError "")))).1
  = Ok [("success", VBool true); ("output", VStr "clean")].
Proof.
  apply (proj1 (@execute_command_spec demo_library ["git"; "status"]
                  (demo_world 0 "  clean " "" (Raise (OSError "")))
                  0 "  clean " "" demo_root eq_refl)).
  reflexivity.
Defined.

(** ** Running the monad step by step *)

Lemma bind_run {A B} (m : M A) (k : A → M B) (w : world) :
  bind m k w = match m w with
               | (Ok a, w') => k a w'
               | (Raise e, w') => (Raise e, w')
               end.
Proof. reflexivity. Qed.

Lemma list_append_run (l : loc) (x : string) (w : world) :
  builtins.list_append l x w
  = (Ok tt, with_heap (λ l', if Nat.eqb l' l then heap w l ++ [x] else heap w l') w).
Proof. reflexivity. Qed.

Lemma path_exists_run (p : string) (w : world) (b : bool) :
  (os.path_exists p w).1 = Ok b → os.path_exists p w = (Ok b, w).
Proof. intros <-. reflexivity. Qed.

Lemma getitem_success (b : bool) (kv : string * value) (w : world) :
  builtins.getitem [("success", VBool b); kv] "success" w = (Ok (VBool b), w).
Proof. reflexivity. Qed.

(** [os.chmod] changes the mode of the node the path leads to, when the
    process can reach it and may change it, and raises an [OSError]
    otherwise, leaving the world as it is. *)
Lemma chmod_cases (path : string) (mode : Z) (w : world) :
  (∃ cs n', vfs.resolve path = Some cs
            ∧ os.reaches w cs = true ∧ may_chmod w cs = true
            ∧ vfs.alter_at (vfs.set_mode (Z.land mode o7777)) cs (fs w) = Some n'
            ∧ os.chmod path mode w = (Ok tt, with_fs n' w))
  ∨ (∃ msg, os.chmod path mode w = (Raise (OSError msg), w)).
Proof.
  unfold os.chmod.
  destruct (vfs.resolve path) as [cs|]; [| right; by eauto].
  destruct (os.reaches w cs) eqn:Hreach; [| right; by eauto].
  destruct (vfs.alter_at _ cs (fs w)) as [n'|] eqn:Halter; [| right; by eauto].
  destruct (may_chmod w cs) eqn:Hown; [| right; by eauto].
  left. by exists cs, n'.
Qed.

Lemma issued_app (w w' : world) (l : list (list string * proc_outcome)) :
  spawned w' = spawned w ++ l → issued w w' = l.
Proof. unfold issued. intros ->. apply drop_app_length. Qed.

(** ** The repository synchroniser *)

Section Synchronizer.
Context `{Library}.

(** One step of the run: a log entry, a command, a look at its result. *)
Ltac step_log := rewrite bind_run, list_append_run; cbv beta iota.

Ltac unfold_after :=
  unfold after_command;
  cbn [spawned fs programs heap with_heap with_fs with_spawned].

(** The five ways a call can end; an exit is split by its status. *)
Ltac step_command :=
  rewrite execute_command_eq; unfold_after;
  let rc := fresh "rc" in
  let E := fresh "Hrun" in
  match goal with
  | |- context [programs ?a ?b ?c ?d] =>
      destruct (programs a b c d) as [[rc ? ?|?|?|?|?] ?] eqn:E
  end;
  cbn [fst snd command_result started];
  cbn [spawned fs programs heap with_heap with_fs with_spawned];
  [destruct (Z.eqb_spec rc 0); [subst rc|] | ..].

Ltac look := rewrite ?bind_run, ?getitem_success;
             cbv beta iota delta [negb value_truthy].

Ltac close_issued :=
  apply issued_app; cbn [spawned with_heap with_fs with_spawned];
  rewrite <- ?app_assoc; reflexivity.

(** C3: when the first command (the clone, or the fetch when the
    directory exists) exits with a non-zero status, the synchroniser
    returns the very result [execute_command] gave for it, in the very
    world that command left: nothing else was started. *)
Theorem first_command_failure (repo_url branch : string)
    (commit_hash : option string) (local_dir : string) (logs : loc)
    (w : world) (present : bool) (rc : Z) (out err : string) (f' : node) :
  let first := if present
               then ["git"; "-C"; local_dir; "fetch"]
               else ["git"; "clone"; "-b"; branch; repo_url; local_dir] in
  let msg := if present
             then "Repository already exists. Fetching latest changes."
             else "Cloning repository " +:+ repo_url +:+ " into " +:+ local_dir in
  (os.path_exists local_dir w).1 = Ok present →
  programs w (spawned w) first (fs w) = (Exited rc out err, f') →
  rc ≠ 0 →
  ∃ d w',
    deployment.execute_command first (builtins.list_append logs msg w).2 = (Ok d, w')
    ∧ dict_get "success" d = Some (VBool false)
    ∧ deployment.clone_or_update_repo repo_url branch commit_hash local_dir logs w
      = (Ok d, w')
    ∧ issued w w' = [(first, Exited rc out err)].
Proof.
  intros first msg Hp Hprog Hrc. apply Z.eqb_neq in Hrc.
  unfold deployment.clone_or_update_repo.
  rewrite bind_run, (path_exists_run _ _ _ Hp). cbv beta iota.
  rewrite bind_run.
  destruct present; cbv beta iota delta [negb]; subst first msg;
    step_log; cbn [snd]; rewrite execute_command_eq; unfold_after;
    rewrite Hprog; cbn [fst snd command_result]; rewrite Hrc;
    (eexists; eexists; split; [reflexivity |]; split; [reflexivity |]);
    look; (split; [reflexivity | close_issued]).
Qed.

(** C2: when the directory exists and no commit hash is given ([None],
    or the empty string), and every process started succeeds, the
    processes started are the fetch, the checkout of the branch and the
    pull from origin, in that order. *)
Theorem update_existing_sequence (repo_url branch : string)
    (commit_hash : option string) (local_dir : string) (logs : loc)
    (w : world) :
  let w' := (deployment.clone_or_update_repo repo_url branch commit_hash
               local_dir logs w).2 in
  (os.path_exists local_dir w).1 = Ok true →
  commit_hash = None ∨ commit_hash = Some "" →
  Forall (λ e, succeeded e.2 = true) (issued w w') →
  map fst (issued w w')
  = [["git"; "-C"; local_dir; "fetch"];
     ["git"; "-C"; local_dir; "checkout"; branch];
     ["git"; "-C"; local_dir; "pull"; "origin"; branch]].
Proof.
  intros w' Hp Hc. subst w'.
  assert (Hfail : ∀ (l : list (list string * proc_outcome)) c o,
             succeeded o = false →
             ¬ Forall (λ e, succeeded e.2 = true) (l ++ [(c, o)])).
  { intros l c o Ho HF. apply Forall_app in HF as [_ HF].
    apply Forall_cons in HF as [HF _]. simpl in HF. congruence. }
  unfold deployment.clone_or_update_repo.
  rewrite bind_run, (path_exists_run _ _ _ Hp). cbv beta iota.
  rewrite bind_run. cbv beta iota delta [negb].
  step_log. step_command.
  - look.
    assert (Hsame : match commit_hash with
                    | Some h => str.truthy h
                    | None => false
                    end = false)
      by (destruct Hc as [-> | ->]; reflexivity).
    destruct commit_hash as [h|]; [rewrite Hsame |]; clear Hsame;
      step_log; rewrite bind_run; step_command; look;
      try step_command; intros HF;
      try (exfalso; revert HF;
           erewrite issued_app; [| cbn; rewrite <- ?app_assoc; reflexivity];
           first [ apply (Hfail [_; _]) | apply (Hfail [_]) ];
           simpl; first [ by apply Z.eqb_neq | done ]);
      (erewrite issued_app; [| cbn; rewrite <- ?app_assoc; reflexivity]);
      reflexivity.
  - look. intros HF. exfalso. revert HF.
    erewrite issued_app; [| cbn; rewrite <- ?app_assoc; reflexivity].
    apply (Hfail []). simpl. by apply Z.eqb_neq.
  - (* the fetch could not be started *)
    intros HF. exfalso. revert HF.
    erewrite issued_app; [| cbn; rewrite <- ?app_assoc; reflexivity].
    by apply (Hfail []).
  - (* what it wrote is not text *)
    intros HF. exfalso. revert HF.
    erewrite issued_app; [| cbn; rewrite <- ?app_assoc; reflexivity].
    by apply (Hfail []).
  - (* no program to start *)
    intros HF. exfalso. revert HF.
    erewrite issued_app; [| cbn; rewrite <- ?app_assoc; reflexivity].
    by apply (Hfail []).
  - (* an argument that cannot be handed over *)
    intros HF. exfalso. revert HF.
    erewrite issued_app; [| cbn; rewrite <- ?app_assoc; reflexivity].
    by apply (Hfail []).
Qed.

Ltac rewrite_issued :=
  erewrite issued_app;
  [| cbn [spawned with_heap with_fs with_spawned]; rewrite <- ?app_assoc;
     reflexivity];
  cbn [app].

Ltac no_such_command :=
  repeat (constructor; [cbn; discriminate |]); constructor.

(** Goals that follow from the exit statuses at hand. *)
Ltac by_status :=
  solve [ cbn [succeeded]; intros;
          repeat match goal with
                 | Hs : (_ =? 0) = true |- _ => apply Z.eqb_eq in Hs
                 | Hs : (_ =? 0) = false |- _ => apply Z.eqb_neq in Hs
                 | Hs : _ ∨ _ |- _ => destruct Hs
                 end;
          first [ done | congruence | by eexists ] ].

(** C1, as the code has it: when the directory does not exist, the first
    process started is the clone with the branch and the URL supplied, and
    no fetch is ever started.  A failed clone ends the run; after a
    successful one the commit hash (or, without one, the branch) is checked
    out, and the checkout of the branch, when it succeeds, is followed by
    the pull. *)
Theorem clone_when_absent (repo_url branch : string)
    (commit_hash : option string) (local_dir : string) (logs : loc)
    (w : world) :
  let w' := (deployment.clone_or_update_repo repo_url branch commit_hash
               local_dir logs w).2 in
  (os.path_exists local_dir w).1 = Ok false →
  ∃ o rest,
    issued w w' = (["git"; "clone"; "-b"; branch; repo_url; local_dir], o) :: rest
    ∧ Forall (λ e, subcommand e.1 ≠ Some "fetch") (issued w w')
    ∧ (succeeded o = false → rest = [])
    ∧ (succeeded o = true →
       ∃ o2 rest2,
         rest = (["git"; "-C"; local_dir; "checkout";
                  checkout_target branch commit_hash], o2) :: rest2
         ∧ (truthy_opt commit_hash = true ∨ succeeded o2 = false → rest2 = [])
         ∧ (truthy_opt commit_hash = false → succeeded o2 = true →
            ∃ o3, rest2 = [(["git"; "-C"; local_dir; "pull"; "origin"; branch], o3)])).
Proof.
  intros w' Hp. subst w'.
  unfold deployment.clone_or_update_repo.
  rewrite bind_run, (path_exists_run _ _ _ Hp). cbv beta iota.
  rewrite bind_run. cbv beta iota delta [negb].
  step_log. step_command; look.
  - (* the clone succeeded *)
    destruct commit_hash as [h|]; [destruct (str.truthy h) eqn:Hh |];
      unfold checkout_target, truthy_opt; rewrite ?Hh;
      step_log; rewrite ?bind_run; step_command; look; try step_command;
      cbn [snd]; rewrite_issued;
      (eexists; eexists; split; [reflexivity |]);
      (split; [no_such_command |]);
      (split; [by_status |]);
      intros _; (eexists; eexists; split; [reflexivity |]);
      split; by_status.
  - (* the clone exited with another status *)
    cbn [snd]. rewrite_issued.
    eexists; eexists; split; [reflexivity |].
    split; [no_such_command |]. split; by_status.
  - (* the clone could not be started *)
    cbn [snd]. rewrite_issued.
    eexists; eexists; split; [reflexivity |].
    split; [no_such_command |]. split; by_status.
  - (* what it wrote is not text *)
    cbn [snd]. rewrite_issued.
    eexists; eexists; split; [reflexivity |].
    split; [no_such_command |]. split; by_status.
  - (* no program to start *)
    cbn [snd]. rewrite_issued.
    eexists; eexists; split; [reflexivity |].
    split; [no_such_command |]. split; by_status.
  - (* an argument that cannot be handed over *)
    cbn [snd]. rewrite_issued.
    eexists; eexists; split; [reflexivity |].
    split; [no_such_command |]. split; by_status.
Qed.

(** C4: when the directory exists and a commit hash is given, the first
    process started is the fetch; if it succeeds it is followed by the
    checkout of that very commit hash and by nothing else, and if it does
    not, by nothing at all.  No pull is ever started. *)
Theorem pinned_commit_sequence (repo_url branch h : string)
    (local_dir : string) (logs : loc) (w : world) :
  let w' := (deployment.clone_or_update_repo repo_url branch (Some h)
               local_dir logs w).2 in
  (os.path_exists local_dir w).1 = Ok true →
  h ≠ "" →
  ∃ o rest,
    issued w w' = (["git"; "-C"; local_dir; "fetch"], o) :: rest
    ∧ (succeeded o = true →
       ∃ o2, rest = [(["git"; "-C"; local_dir; "checkout"; h], o2)])
    ∧ (succeeded o = false → rest = [])
    ∧ Forall (λ e, subcommand e.1 ≠ Some "pull") (issued w w').
Proof.
  intros w' Hp Hh. subst w'. apply truthy_true in Hh.
  unfold deployment.clone_or_update_repo.
  rewrite bind_run, (path_exists_run _ _ _ Hp). cbv beta iota.
  rewrite bind_run. cbv beta iota delta [negb].
  step_log. step_command; look.
  - rewrite Hh. step_log. step_command;
      cbn [snd]; rewrite_issued;
      (eexists; eexists; split; [reflexivity |]);
      (split; [by_status |]);
      (split; [by_status | no_such_command]).
  - cbn [snd]. rewrite_issued.
    eexists; eexists; split; [reflexivity |].
    split; [by_status |]. split; [by_status | no_such_command].
  - cbn [snd]. rewrite_issued.
    eexists; eexists; split; [reflexivity |].
    split; [by_status |]. split; [by_status | no_such_command].
  - cbn [snd]. rewrite_issued.
    eexists; eexists; split; [reflexivity |].
    split; [by_status |]. split; [by_status | no_such_command].
  - cbn [snd]. rewrite_issued.
    eexists; eexists; split; [reflexivity |].
    split; [by_status |]. split; [by_status | no_such_command].
  - cbn [snd]. rewrite_issued.
    eexists; eexists; split; [reflexivity |].
    split; [by_status |]. split; [by_status | no_such_command].
Qed.

End Synchronizer.

Lemma first_command_failure_witness :
  ∃ d w',
    @deployment.clone_or_update_repo demo_library "url" "main" None "./test" 0%nat
      (demo_world 1 "" "fatal: no remote" (Raise (OSError "")))
    = (Ok d, w')
    ∧ d = [("success", VBool false); ("error", VStr "fatal: no remote")]
    ∧ issued (demo_world 1 "" "fatal: no remote" (Raise (OSError ""))) w'
      = [(["git"; "-C"; "./test"; "fetch"], Exited 1 "" "fatal: no remote")].
Proof.
  destruct (@first_command_failure demo_library "url" "main" None "./test" 0%nat
              (demo_world 1 "" "fatal: no remote" (Raise (OSError "")))
              true 1 "" "fatal: no remote" demo_root)
    as (d & w' & Hd & _ & Hrun & Hissued).
  - reflexivity.
  - reflexivity.
  - discriminate.
  - exists d, w'. split; [exact Hrun |]. split; [| exact Hissued].
    vm_compute in Hd. congruence.
Defined.

Lemma update_existing_sequence_witness :
  map fst
    (issued (demo_world 0 "" "" (Raise (OSError "")))
       (@deployment.clone_or_update_repo demo_library "url" "main" None "./test"
          0%nat (demo_world 0 "" "" (Raise (OSError "")))).2)
  = [["git"; "-C"; "./test"; "fetch"];
     ["git"; "-C"; "./test"; "checkout"; "main"];
     ["git"; "-C"; "./test"; "pull"; "origin"; "main"]].
Proof.
  apply (@update_existing_sequence demo_library "url" "main" None "./test" 0%nat
           (demo_world 0 "" "" (Raise (OSError "")))).
  - reflexivity.
  - left. reflexivity.
  - vm_compute. repeat constructor.
Defined.

(** C1 as stated fails: the directory [./new] does not exist, the clone
    succeeds, and a checkout and a pull are started after it. *)
Lemma clone_only_counterexample :
  let w := demo_world 0 "" "" (Raise (OSError "")) in
  let w' := (@deployment.clone_or_update_repo demo_library "url" "main" None
               "./new" 0%nat w).2 in
  (os.path_exists "./new" w).1 = Ok false
  ∧ map fst (issued w w')
    = [["git"; "clone"; "-b"; "main"; "url"; "./new"];
       ["git"; "-C"; "./new"; "checkout"; "main"];
       ["git"; "-C"; "./new"; "pull"; "origin"; "main"]]
  ∧ map fst (issued w w') ≠ [["git"; "clone"; "-b"; "main"; "url"; "./new"]].
Proof.
  split; [reflexivity |]. split; [reflexivity |]. vm_compute. discriminate.
Qed.

Lemma clone_when_absent_witness :
  ∃ o rest,
    issued (demo_world 0 "" "" (Raise (OSError "")))
      (@deployment.clone_or_update_repo demo_library "url" "main" (Some "abc")
         "./new" 0%nat (demo_world 0 "" "" (Raise (OSError "")))).2
    = (["git"; "clone"; "-b"; "main"; "url"; "./new"], o) :: rest.
Proof.
  destruct (@clone_when_absent demo_library "url" "main" (Some "abc") "./new" 0%nat
              (demo_world 0 "" "" (Raise (OSError ""))))
    as (o & rest & Hissued & _).
  - reflexivity.
  - exists o, rest. exact Hissued.
Defined.

Lemma pinned_commit_sequence_witness :
  ∃ o rest,
    issued (demo_world 0 "" "" (Raise (OSError "")))
      (@deployment.clone_or_update_repo demo_library "url" "main" (Some "abc")
         "./test" 0%nat (demo_world 0 "" "" (Raise (OSError "")))).2
    = (["git"; "-C"; "./test"; "fetch"], o) :: rest
    ∧ Forall (λ e, subcommand e.1 ≠ Some "pull")
        (issued (demo_world 0 "" "" (Raise (OSError "")))
           (@deployment.clone_or_update_repo demo_library "url" "main" (Some "abc")
              "./test" 0%nat (demo_world 0 "" "" (Raise (OSError "")))).2).
Proof.
  destruct (@pinned_commit_sequence demo_library "url" "main" "abc" "./test" 0%nat
              (demo_world 0 "" "" (Raise (OSError ""))))
    as (o & rest & Hissued & _ & _ & Hnopull).
  - reflexivity.
  - discriminate.
  - exists o, rest. split; [exact Hissued | exact Hnopull].
Defined.

(** ** The deployment reporter *)

Lemma post_run (url : string) (payload : json_value) (w : world) :
  requests.post url payload w
  = match network w (posted w) url payload with
    | Ok r => (Ok r, with_posted (posted w ++ [(url, payload)]) w)
    | Raise e => (Raise e, with_posted (posted w ++ [(url, payload)]) w)
    end.
Proof. reflexivity. Qed.

Section Reporter.
Context `{Library}.

(** C6, as the code has it.  A network-level failure (the POST raises a
    [RequestException]) is caught: its message is printed after
    ["Error: "] and nothing is raised.  A response whose body decodes as
    JSON makes the reporter print one line, which is the success line
    exactly when the status code is 200 and the failure line exactly
    when it is not, and then the decoded body. *)
Theorem deploy_repo_report (username : option string)
    (server_url repo_url branch : string) (commit_hash : option string)
    (local_dir exclude_ext : string) (w : world) :
  let payload :=
    JObject [("username", json_of_opt username);
             ("repo_url", JString repo_url);
             ("branch", JString branch);
             ("commit_hash", json_of_opt commit_hash);
             ("local_dir", JString local_dir);
             ("exclude_ext", JString exclude_ext)] in
  let reply := network w (posted w) (server_url +:+ "/deploy") payload in
  let run := deployment.deploy_repo username server_url repo_url branch
               commit_hash local_dir exclude_ext w in
  (∀ msg, reply = Raise (RequestException msg) →
          run.1 = Ok tt ∧ console run.2 = console w ++ ["Error: " +:+ msg])
  ∧ (∀ r j, reply = Ok r → json_result r = Ok j →
       ∃ line,
         run.1 = Ok tt
         ∧ console run.2 = console w ++ [line; json_dumps_indent4 j]
         ∧ (line = "Deployment successful!" ↔ status_code r = 200)
         ∧ (line = "Deployment failed!" ↔ status_code r ≠ 200)).
Proof.
  intros payload reply run. subst run.
  unfold deployment.deploy_repo, try_except.
  rewrite bind_run, post_run. fold payload.
  change (network w (posted w) (server_url +:+ "/deploy") payload) with reply.
  split.
  - intros msg ->. split; reflexivity.
  - intros r j -> Hj. rewrite bind_run. unfold requests.json. rewrite Hj.
    cbn [ret]. rewrite bind_run.
    destruct (Z.eqb_spec (status_code r) 200) as [Hs | Hs].
    + exists "Deployment successful!". cbn. rewrite <- app_assoc.
      split; [done |]. split; [done |]. split; [done |].
      split; [discriminate | done].
    + exists "Deployment failed!". cbn. rewrite <- app_assoc.
      split; [done |]. split; [done |]. split; [| done].
      split; [discriminate | done].
Qed.

End Reporter.

Lemma deploy_repo_report_witness :
  console (@deployment.deploy_repo demo_library (Some "alice")
             "http://localhost:9000" "url" "main" None "./test" ".ipynb"
             (demo_world 0 "" "" (Raise (RequestException "Connection refused")))).2
  = ["Error: Connection refused"].
Proof.
  apply (proj1 (@deploy_repo_report demo_library (Some "alice")
                  "http://localhost:9000" "url" "main" None "./test" ".ipynb"
                  (demo_world 0 "" "" (Raise (RequestException "Connection refused"))))
               "Connection refused" eq_refl).
Defined.

(** C6 as stated fails for a response whose body is not JSON: decoding
    comes before the status code is looked at.  With a status of 500 and
    the decoding error of the requests library (itself a
    [RequestException]) only an error line is printed; with a status of
    200 and a plain [ValueError] nothing is printed and the exception
    leaves the reporter. *)
Lemma deploy_repo_counterexample :
  let report reply :=
    @deployment.deploy_repo demo_library (Some "alice") "http://localhost:9000"
      "url" "main" None "./test" ".ipynb" (demo_world 0 "" "" (Ok reply)) in
  let html500 := Response 500 (Raise (RequestException "Expecting value")) in
  let html200 := Response 200 (Raise (ValueError "Expecting value")) in
  (status_code html500 ≠ 200
   ∧ console (report html500).2 = ["Error: Expecting value"]
   ∧ "Deployment failed!" ∉ console (report html500).2)
  ∧ (status_code html200 = 200
     ∧ (report html200).1 = Raise (ValueError "Expecting value")
     ∧ "Deployment successful!" ∉ console (report html200).2).
Proof.
  cbv zeta. split.
  - split; [discriminate |]. split; [reflexivity |].
    vm_compute. intros Hin. inversion Hin as [|? ? ? Hin']. inversion Hin'.
  - split; [reflexivity |]. split; [reflexivity |].
    vm_compute. intros Hin. inversion Hin.
Qed.

(** ** The log is only appended to *)

Lemma appends_only_ret {A} (a : A) : appends_only (ret a).
Proof. intros w l. reflexivity. Qed.

Lemma appends_only_raise {A} (e : exn) : appends_only (@raise A e).
Proof. intros w l. reflexivity. Qed.

Lemma appends_only_bind {A B} (m : M A) (k : A → M B) :
  appends_only m → (∀ a, appends_only (k a)) → appends_only (bind m k).
Proof.
  intros Hm Hk w l. unfold bind. specialize (Hm w l).
  destruct (m w) as [[a | e] w1]; cbn [snd] in *.
  - etransitivity; [exact Hm | apply Hk].
  - exact Hm.
Qed.

Lemma appends_only_for_each {A} (xs : list A) (body : A → M unit) :
  (∀ x, appends_only (body x)) → appends_only (for_each xs body).
Proof.
  intros Hbody. induction xs as [|x xs IH]; cbn [for_each].
  - apply appends_only_ret.
  - apply appends_only_bind; [apply Hbody | intros _; exact IH].
Qed.

Lemma appends_only_list_append (l : loc) (x : string) :
  appends_only (builtins.list_append l x).
Proof.
  intros w l'. cbn. destruct (Nat.eqb_spec l' l) as [-> | _].
  - by apply prefix_app_r.
  - reflexivity.
Qed.

Lemma appends_only_getitem (d : dict) (k : string) :
  appends_only (builtins.getitem d k).
Proof.
  unfold builtins.getitem.
  destruct (dict_get k d); [apply appends_only_ret | apply appends_only_raise].
Qed.

Lemma appends_only_path_exists (p : string) : appends_only (os.path_exists p).
Proof. intros w l. reflexivity. Qed.

Lemma appends_only_walk (top : string) : appends_only (os.walk top).
Proof. intros w l. reflexivity. Qed.

Lemma appends_only_chmod (path : string) (mode : Z) :
  appends_only (os.chmod path mode).
Proof.
  intros w l.
  destruct (chmod_cases path mode w) as [(cs & n' & _ & _ & _ & _ & ->) | [msg ->]];
    reflexivity.
Qed.

Lemma appends_only_execute_command `{Library} (command : list string) :
  appends_only (deployment.execute_command command).
Proof.
  intros w l. rewrite execute_command_eq. cbn [snd].
  by rewrite after_command_heap.
Qed.

Create HintDb logs.
#[local] Hint Resolve appends_only_ret appends_only_raise appends_only_list_append
  appends_only_getitem appends_only_path_exists appends_only_walk
  appends_only_chmod appends_only_execute_command : logs.

(** Goes through the text of a function, statement by statement. *)
Ltac appends_only_tac :=
  repeat first
    [ apply appends_only_bind; [| intros ?]
    | apply appends_only_for_each; intros ?
    | match goal with
      | |- appends_only (if ?b then _ else _) => destruct b
      | |- appends_only (match ?x with _ => _ end) => destruct x
      end
    | solve [auto with logs] ].

Lemma appends_only_clone_or_update_repo `{Library} (repo_url branch : string)
    (commit_hash : option string) (local_dir : string) (logs : loc) :
  appends_only
    (deployment.clone_or_update_repo repo_url branch commit_hash local_dir logs).
Proof. unfold deployment.clone_or_update_repo. cbv zeta. appends_only_tac. Qed.

Lemma appends_only_set_permission_readonly (local_dir exclude_ext : string)
    (logs : loc) :
  appends_only (deployment.set_permission_readonly local_dir exclude_ext logs).
Proof. unfold deployment.set_permission_readonly. appends_only_tac. Qed.

Lemma appends_only_set_permission_full (local_dir : string) (logs : loc) :
  appends_only (deployment.set_permission_full local_dir logs).
Proof. unfold deployment.set_permission_full. appends_only_tac. Qed.

(** C9: whatever the three functions are called with and however they
    end, the list object passed as [logs] holds after the call what it
    held before, followed by the new entries. *)
Theorem logs_append_only `{Library} :
  (∀ repo_url branch commit_hash local_dir logs w,
     heap w logs `prefix_of`
       heap (deployment.clone_or_update_repo repo_url branch commit_hash
               local_dir logs w).2 logs)
  ∧ (∀ local_dir exclude_ext logs w,
       heap w logs `prefix_of`
         heap (deployment.set_permission_readonly local_dir exclude_ext logs w).2 logs)
  ∧ (∀ local_dir logs w,
       heap w logs `prefix_of`
         heap (deployment.set_permission_full local_dir logs w).2 logs).
Proof.
  split; [| split]; intros.
  - apply appends_only_clone_or_update_repo.
  - apply appends_only_set_permission_readonly.
  - apply appends_only_set_permission_full.
Qed.

(** ** Paths *)

Lemma ascii_eqb_refl (c : ascii) : Ascii.eqb c c = true.
Proof. by apply Ascii.eqb_eq. Qed.

Lemma endswith_refl (s : string) : str.endswith s s = true.
Proof. destruct s; cbn [str.endswith]; by rewrite String.eqb_refl. Qed.

Lemma endswith_spec (s suffix : string) :
  str.endswith s suffix = true ↔ ∃ pre, s = pre +:+ suffix.
Proof.
  split.
  - induction s as [|c s IH]; cbn [str.endswith].
    + rewrite orb_false_r. intros Heq. apply String.eqb_eq in Heq.
      exists "". by subst.
    + intros Hor. apply orb_true_iff in Hor as [Heq | Hend].
      * apply String.eqb_eq in Heq. exists "". by subst.
      * destruct (IH Hend) as [pre ->]. by exists (String c pre).
  - intros [pre ->]. induction pre as [|c pre IH].
    + apply endswith_refl.
    + change (String c pre +:+ suffix) with (String c (pre +:+ suffix)).
      cbn [str.endswith]. rewrite IH. apply orb_true_r.
Qed.

Lemma split_nonempty (sep : ascii) (s : string) :
  ∃ x xs, str.split sep s = x :: xs.
Proof.
  induction s as [|c s (x & xs & IH)]; simpl; [by eauto |].
  destruct (Ascii.eqb c sep); [by eauto |]. rewrite IH. by eauto.
Qed.

Lemma split_app_sep (sep : ascii) (a b : string) :
  str.split sep (a +:+ String sep b) = str.split sep a ++ str.split sep b.
Proof.
  induction a as [|c a IH]; simpl.
  - by rewrite ascii_eqb_refl.
  - destruct (Ascii.eqb c sep); [by rewrite IH |].
    rewrite IH. by destruct (split_nonempty sep a) as (x & xs & ->).
Qed.

Lemma split_no_sep (sep : ascii) (s : string) :
  str.contains sep s = false → str.split sep s = [s].
Proof.
  induction s as [|c s IH]; simpl; [done |].
  intros Hc. apply orb_false_iff in Hc as [Hc Hs].
  by rewrite Hc, (IH Hs).
Qed.

Lemma components_app_sep (a b : string) :
  vfs.components (a +:+ "/" +:+ b) = vfs.components a ++ vfs.components b.
Proof.
  unfold vfs.components.
  change ("/" +:+ b) with (String "/" b).
  by rewrite split_app_sep, List.filter_app.
Qed.

Lemma components_trailing_sep (a : string) :
  vfs.components (a +:+ "/") = vfs.components a.
Proof.
  unfold vfs.components.
  rewrite (split_app_sep "/" a ""), List.filter_app. apply app_nil_r.
Qed.

Lemma plain_spec (name : string) :
  vfs.plain name = true →
  vfs.skipped name = false ∧ str.contains "/" name = false ∧ name ≠ "".
Proof.
  unfold vfs.plain, vfs.skipped. intros Hp.
  repeat (apply andb_true_iff in Hp as [Hp ?]).
  destruct (String.eqb_spec name ""); [done |].
  destruct (String.eqb name "."); [done |].
  by destruct (str.contains "/" name).
Qed.

Lemma components_plain (name : string) :
  vfs.plain name = true → vfs.components name = [name].
Proof.
  intros (Hskip & Hsep & _)%plain_spec. unfold vfs.components.
  rewrite (split_no_sep _ _ Hsep). simpl. by rewrite Hskip.
Qed.

Lemma plain_not_absolute (name : string) :
  vfs.plain name = true → str.startswith name "/" = false.
Proof.
  intros (_ & Hsep & _)%plain_spec. destruct name as [|c name]; [done |].
  cbn [str.contains str.startswith] in *.
  apply orb_false_iff in Hsep as [Hc _].
  rewrite Ascii.eqb_sym, Hc. reflexivity.
Qed.

(** The path of an entry has the components of the directory and then the
    name of the entry. *)
Lemma components_join (dir name : string) :
  vfs.plain name = true →
  vfs.components (os.path_join dir name) = vfs.components dir ++ [name].
Proof.
  intros Hp. unfold os.path_join. rewrite (plain_not_absolute _ Hp).
  destruct (str.truthy dir) eqn:Hdir; cbn [negb orb].
  - destruct (str.endswith dir "/") eqn:Hend.
    + apply endswith_spec in Hend as [pre ->].
      rewrite append_assoc, components_app_sep, components_trailing_sep.
      by rewrite (components_plain _ Hp).
    + by rewrite components_app_sep, (components_plain _ Hp).
  - apply truthy_false in Hdir as ->.
    change ("" +:+ name) with name. by rewrite (components_plain _ Hp).
Qed.

Lemma join_not_empty (dir name : string) :
  vfs.plain name = true → os.path_join dir name ≠ "".
Proof.
  intros Hp Hj. pose proof (components_join dir name Hp) as Hc.
  rewrite Hj in Hc. simpl in Hc. by destruct (vfs.components dir).
Qed.

Lemma resolve_join (dir name : string) :
  vfs.plain name = true →
  vfs.resolve (os.path_join dir name) = Some (vfs.components dir ++ [name]).
Proof.
  intros Hp. unfold vfs.resolve.
  destruct (String.eqb_spec (os.path_join dir name) "") as [Hj | _].
  - by apply join_not_empty in Hj.
  - by rewrite components_join.
Qed.

(** ** The file tree *)

Lemma node_induction (P : node → Prop) :
  (∀ name mode data, P (File name mode data)) →
  (∀ name mode es, Forall P es → P (Dir name mode es)) →
  ∀ n, P n.
Proof.
  intros HF HD. fix IH 1. intros [name mode data | name mode es].
  - apply HF.
  - apply HD. induction es as [|e es IHes]; constructor; [apply IH | exact IHes].
Qed.

Lemma find_entry_Some (c : string) (es : list node) (e : node) :
  vfs.find_entry c es = Some e → e ∈ es ∧ node_name e = c.
Proof.
  induction es as [|x es IH]; simpl; [done |].
  destruct (String.eqb_spec (node_name x) c) as [Hx | Hx].
  - intros [= ->]. split; [left | done].
  - intros [Hin Hn]%IH. split; [by right | done].
Qed.

Lemma find_entry_NoDup (es : list node) (e : node) :
  NoDup (map node_name es) → e ∈ es → vfs.find_entry (node_name e) es = Some e.
Proof.
  induction es as [|x es IH]; simpl; intros Hnd Hin.
  - by apply elem_of_nil in Hin.
  - apply NoDup_cons in Hnd as [Hx Hnd].
    apply elem_of_cons in Hin as [-> | Hin].
    + by rewrite String.eqb_refl.
    + destruct (String.eqb_spec (node_name x) (node_name e)) as [Heq | _].
      * exfalso. apply Hx. rewrite Heq. by apply list_elem_of_fmap_2.
      * by apply IH.
Qed.

Lemma lookup_at_app (a b : list string) (n : node) :
  vfs.lookup_at (a ++ b) n
  = match vfs.lookup_at a n with
    | Some x => vfs.lookup_at b x
    | None => None
    end.
Proof.
  revert n. induction a as [|c a IH]; intros n; simpl; [done |].
  destruct n as [| name mode es]; [done |].
  destruct (vfs.find_entry c es); [apply IH | done].
Qed.

Lemma wf_dir (name : string) (mode : Z) (es : list node) :
  vfs.wf (Dir name mode es) = true →
  NoDup (map node_name es)
  ∧ ∀ e, e ∈ es → vfs.plain (node_name e) = true ∧ vfs.wf e = true.
Proof.
  simpl. intros [Hnd Hall]%andb_true_iff. split.
  - by apply bool_decide_eq_true in Hnd.
  - intros e Hin. rewrite forallb_forall in Hall.
    apply andb_true_iff, Hall. by apply list_elem_of_In.
Qed.

Lemma wf_lookup (p : list string) (n x : node) :
  vfs.wf n = true → vfs.lookup_at p n = Some x → vfs.wf x = true.
Proof.
  revert n. induction p as [|c p IH]; intros n Hwf; simpl.
  - by intros [= <-].
  - destruct n as [| name mode es]; [done |].
    destruct (vfs.find_entry c es) as [e|] eqn:Hfind; [| done].
    apply IH. apply find_entry_Some in Hfind as [Hin _].
    by apply (wf_dir _ _ _ Hwf).
Qed.

Lemma file_at_cons (c : string) (p : list string) (name : string) (mode : Z)
    (es : list node) :
  vfs.file_at (c :: p) (Dir name mode es)
  = match vfs.find_entry c es with
    | Some e => vfs.file_at p e
    | None => None
    end.
Proof. unfold vfs.file_at. simpl. by destruct (vfs.find_entry c es). Qed.

Lemma same_shape_name (x y : node) : vfs.same_shape x y → node_name y = node_name x.
Proof. destruct x, y; simpl; try done. by intros [-> _]. Qed.

Lemma alter_entry_find (c : string) (g : node → option node) (es es' : list node) :
  (∀ e e', node_name e = c → g e = Some e' → node_name e' = c) →
  vfs.alter_entry c g es = Some es' →
  (∃ e e', vfs.find_entry c es = Some e ∧ g e = Some e'
           ∧ vfs.find_entry c es' = Some e')
  ∧ ∀ c', c' ≠ c → vfs.find_entry c' es' = vfs.find_entry c' es.
Proof.
  intros Hg. revert es'. induction es as [|x es IH]; intros es'; simpl; [done |].
  destruct (String.eqb_spec (node_name x) c) as [Hx | Hx].
  - destruct (g x) as [x'|] eqn:Hgx; [| done]. intros [= <-].
    pose proof (Hg _ _ Hx Hgx) as Hn. split.
    + exists x, x'. simpl. by rewrite Hn, String.eqb_refl.
    + intros c' Hc'. simpl. rewrite Hn, Hx.
      by destruct (String.eqb_spec c c'); [congruence |].
  - destruct (vfs.alter_entry c g es) as [es''|]; [| done]. intros [= <-].
    destruct (IH es'' eq_refl) as [(e & e' & He & Hge & He') Hother]. split.
    + exists e, e'. simpl.
      by destruct (String.eqb_spec (node_name x) c); [congruence |].
    + intros c' Hc'. simpl. by rewrite (Hother c' Hc').
Qed.

Lemma alter_entry_succeeds (c : string) (g : node → option node) (es : list node)
    (e e' : node) :
  vfs.find_entry c es = Some e → g e = Some e' →
  ∃ es', vfs.alter_entry c g es = Some es'.
Proof.
  induction es as [|x es IH]; simpl; [done |].
  destruct (String.eqb (node_name x) c).
  - intros [= ->] ->. by eauto.
  - intros He Hg. destruct (IH He Hg) as [es' ->]. by eauto.
Qed.

Section Alter.
Variable f : node → option node.
Hypothesis f_name : ∀ x y, f x = Some y → node_name y = node_name x.

Lemma alter_at_name (cs : list string) (n n' : node) :
  vfs.alter_at f cs n = Some n' → node_name n' = node_name n.
Proof.
  destruct cs as [|c cs]; simpl.
  - apply f_name.
  - destruct n as [| name mode es]; [done |].
    destruct (vfs.alter_entry c _ es); [| done]. by intros [= <-].
Qed.

Lemma alter_at_entry_name (cs : list string) (c : string) (e e' : node) :
  node_name e = c → vfs.alter_at f cs e = Some e' → node_name e' = c.
Proof. intros <- Ha. by apply (alter_at_name cs). Qed.

(** Altering the node at [cs]: the node found there afterwards is the
    image of the one found before. *)
Lemma alter_at_lookup (cs : list string) (n x y : node) :
  vfs.lookup_at cs n = Some x → f x = Some y →
  ∃ n', vfs.alter_at f cs n = Some n' ∧ vfs.lookup_at cs n' = Some y.
Proof.
  revert n. induction cs as [|c cs IH]; intros n; simpl.
  - intros [= ->] ->. by eauto.
  - destruct n as [| name mode es]; [done |].
    destruct (vfs.find_entry c es) as [e|] eqn:Hfind; [| done].
    intros Hx Hy. destruct (IH e Hx Hy) as (e' & He' & Hlook).
    destruct (alter_entry_succeeds c _ es e e' Hfind He') as [es' Hes'].
    rewrite Hes'. eexists; split; [done |]. simpl.
    destruct (alter_entry_find c _ es es' (alter_at_entry_name cs c) Hes')
      as [(e1 & e1' & He1 & Hg1 & Hfind') _].
    rewrite Hfind'. congruence.
Qed.

Hypothesis f_shape : ∀ x y, f x = Some y → vfs.same_shape x y.

(** ... and, when only modes and contents change, the files found at the
    other paths are as before ... *)
Lemma alter_at_file_other (cs p : list string) (n n' : node) :
  vfs.alter_at f cs n = Some n' → p ≠ cs → vfs.file_at p n' = vfs.file_at p n.
Proof.
  revert p n n'. induction cs as [|c cs IH]; intros p n n'; simpl.
  - intros Hf Hp. apply f_shape in Hf.
    destruct p as [|c' p]; [done |].
    destruct n as [| name mode es], n' as [| name' mode' es']; simpl in Hf;
      try done.
    destruct Hf as [_ <-]. by rewrite !file_at_cons.
  - destruct n as [| name mode es]; [done |].
    destruct (vfs.alter_entry c _ es) as [es'|] eqn:Hes'; [| done].
    intros [= <-] Hp. destruct p as [|c' p]; [done |].
    rewrite !file_at_cons.
    destruct (alter_entry_find c _ es es' (alter_at_entry_name cs c) Hes')
      as [(e & e' & He & Hg & He') Hother].
    destruct (String.eqb_spec c' c) as [-> | Hc].
    + rewrite He, He'. apply (IH p e e' Hg). congruence.
    + by rewrite (Hother c' Hc).
Qed.

Lemma alter_at_is_dir (cs : list string) (n n' : node) :
  vfs.alter_at f cs n = Some n' → is_dir n' = is_dir n.
Proof.
  destruct cs as [|c cs]; simpl.
  - intros Hf%f_shape. by destruct n, n'.
  - destruct n as [| name mode es]; [done |].
    destruct (vfs.alter_entry c _ es); [| done]. by intros [= <-].
Qed.

End Alter.

Lemma set_mode_shape (mode : Z) (x y : node) :
  vfs.set_mode mode x = Some y → vfs.same_shape x y.
Proof. destruct x; intros [= <-]; simpl; done. Qed.

Lemma append_data_shape (s : string) (x y : node) :
  vfs.append_data s x = Some y → vfs.same_shape x y.
Proof. destruct x; [intros [= <-]; simpl |]; done. Qed.

(** [chmod] on a regular file: it succeeds, the file has the new mode and
    its contents, and every other file is as before. *)
Lemma chmod_file (mode : Z) (cs : list string) (n : node) (m0 : Z) (d : string) :
  vfs.file_at cs n = Some (m0, d) →
  ∃ n', vfs.alter_at (vfs.set_mode mode) cs n = Some n'
        ∧ vfs.file_at cs n' = Some (mode, d)
        ∧ ∀ p, p ≠ cs → vfs.file_at p n' = vfs.file_at p n.
Proof.
  unfold vfs.file_at at 1.
  destruct (vfs.lookup_at cs n) as [[name m1 d1 |]|] eqn:Hlook; try done.
  intros [= -> ->].
  pose proof (λ x y Hf, same_shape_name x y (set_mode_shape mode x y Hf)) as Hname.
  destruct (alter_at_lookup _ Hname cs n _ (File name mode d) Hlook eq_refl)
    as (n' & Hn' & Hlook').
  exists n'. split; [done |]. split.
  - unfold vfs.file_at. by rewrite Hlook'.
  - intros p Hp. by apply (alter_at_file_other _ Hname (set_mode_shape mode) cs).
Qed.

(** ** The tree without the modes of its files *)

Lemma forget_name (n : node) : node_name (vfs.forget_file_modes n) = node_name n.
Proof. by destruct n. Qed.

Lemma forget_is_dir (n : node) : is_dir (vfs.forget_file_modes n) = is_dir n.
Proof. by destruct n. Qed.

Lemma forget_names (es : list node) :
  map node_name (map vfs.forget_file_modes es) = map node_name es.
Proof.
  induction es as [|e es IH]; [done |]. cbn [map]. by rewrite forget_name, IH.
Qed.

Lemma wf_forget (n : node) : vfs.wf (vfs.forget_file_modes n) = vfs.wf n.
Proof.
  induction n as [name mode data | name mode es IH] using node_induction;
    [done |].
  cbn [vfs.forget_file_modes vfs.wf]. rewrite forget_names. f_equal.
  induction es as [|e es IHes]; [done |].
  apply Forall_cons in IH as [He IH]. cbn [map forallb].
  by rewrite forget_name, He, (IHes IH).
Qed.

Lemma find_entry_forget (c : string) (es : list node) :
  vfs.find_entry c (map vfs.forget_file_modes es)
  = option_map vfs.forget_file_modes (vfs.find_entry c es).
Proof.
  induction es as [|e es IH]; [done |]. cbn [map vfs.find_entry].
  rewrite forget_name. by destruct (String.eqb (node_name e) c).
Qed.

Lemma lookup_at_forget (cs : list string) (n : node) :
  vfs.lookup_at cs (vfs.forget_file_modes n)
  = option_map vfs.forget_file_modes (vfs.lookup_at cs n).
Proof.
  revert n. induction cs as [|c cs IH]; intros n; [done |].
  destruct n as [| name mode es]; [done |].
  cbn [vfs.forget_file_modes vfs.lookup_at]. rewrite find_entry_forget.
  destruct (vfs.find_entry c es) as [e|]; [apply IH | done].
Qed.

(** A file is there, with its contents, exactly when it is there in the
    tree without the modes. *)
Lemma file_at_forget (cs : list string) (n : node) :
  vfs.file_at cs (vfs.forget_file_modes n)
  = option_map (λ md, (0, md.2)) (vfs.file_at cs n).
Proof.
  unfold vfs.file_at. rewrite lookup_at_forget.
  by destruct (vfs.lookup_at cs n) as [[]|].
Qed.

(** [chmod] on a regular file changes the mode of that file and nothing
    else. *)
Lemma chmod_file_forget (mode : Z) (cs : list string) :
  ∀ n n', is_Some (vfs.file_at cs n) →
          vfs.alter_at (vfs.set_mode mode) cs n = Some n' →
          vfs.forget_file_modes n' = vfs.forget_file_modes n.
Proof.
  induction cs as [|c cs IH]; intros n n'.
  - unfold vfs.file_at. cbn [vfs.lookup_at vfs.alter_at].
    destruct n as [name m d |]; [| by intros [? ?]].
    by intros _ [= <-].
  - destruct n as [| name m es]; [by intros [? ?] |].
    rewrite file_at_cons. cbn [vfs.alter_at].
    destruct (vfs.alter_entry c _ es) as [es'|] eqn:Hes'; [| done].
    intros Hfile [= <-]. cbn [vfs.forget_file_modes]. f_equal.
    revert es' Hes' Hfile. induction es as [|x es IHes]; intros es'; [done |].
    cbn [vfs.alter_entry vfs.find_entry].
    destruct (String.eqb (node_name x) c).
    + destruct (vfs.alter_at (vfs.set_mode mode) cs x) as [x'|] eqn:Hx; [| done].
      intros [= <-] Hfile. cbn [map]. by rewrite (IH x x' Hfile Hx).
    + destruct (vfs.alter_entry c _ es) as [es''|]; [| done].
      intros [= <-] Hfile. cbn [map]. by rewrite (IHes es'' eq_refl Hfile).
Qed.

(** ** Permissions along a path *)

Lemma passable_app (search : list string → Z → bool) (a b : list string) :
  ∀ pre n,
    vfs.passable search pre (a ++ b) n
    = vfs.passable search pre a n
      && match vfs.lookup_at a n with
         | Some x => vfs.passable search (pre ++ a) b x
         | None => true
         end.
Proof.
  induction a as [|c a IH]; intros pre n.
  - cbn [app vfs.passable vfs.lookup_at]. by rewrite app_nil_r.
  - cbn [app vfs.passable vfs.lookup_at].
    destruct n as [| name m es]; [done |].
    destruct (vfs.find_entry c es) as [e|]; [| by rewrite !andb_true_r].
    rewrite IH, <- app_assoc. cbn [app]. by rewrite andb_assoc.
Qed.

(** Search permission is a matter of the modes of directories. *)
Lemma passable_forget (search : list string → Z → bool) (cs : list string) :
  ∀ pre n,
    vfs.passable search pre cs (vfs.forget_file_modes n)
    = vfs.passable search pre cs n.
Proof.
  induction cs as [|c cs IH]; intros pre n; [done |].
  destruct n as [| name m es]; [done |].
  cbn [vfs.forget_file_modes vfs.passable]. rewrite find_entry_forget.
  destruct (vfs.find_entry c es) as [e|]; [| done].
  cbn [option_map]. by rewrite IH.
Qed.

Lemma dirnames_forget (es : list node) :
  vfs.dirnames (map vfs.forget_file_modes es) = vfs.dirnames es.
Proof.
  unfold vfs.dirnames. induction es as [|e es IH]; [done |].
  cbn [map List.filter]. rewrite forget_is_dir.
  destruct (is_dir e); cbn [map]; by rewrite ?forget_name, IH.
Qed.

Lemma filenames_forget (es : list node) :
  vfs.filenames (map vfs.forget_file_modes es) = vfs.filenames es.
Proof.
  unfold vfs.filenames. induction es as [|e es IH]; [done |].
  cbn [map List.filter]. rewrite forget_is_dir.
  destruct (is_dir e); cbn [negb map]; by rewrite ?forget_name, IH.
Qed.

(** What a walk yields is a matter of names, kinds and modes of
    directories: the modes of the regular files play no part. *)
Lemma walk_from_forget (may : access → list string → Z → bool) (n : node) :
  ∀ top here,
    os.walk_from may top here (vfs.forget_file_modes n)
    = os.walk_from may top here n.
Proof.
  induction n as [name mode data | name mode es IH] using node_induction;
    intros top here; [done |].
  cbn [vfs.forget_file_modes os.walk_from].
  rewrite dirnames_forget, filenames_forget.
  destruct (may R_OK here mode); [| done]. f_equal.
  destruct (may X_OK here mode); [| done].
  induction es as [|e es IHes]; [done |].
  apply Forall_cons in IH as [He IH]. cbn [map flat_map].
  by rewrite forget_name, He, (IHes IH).
Qed.

Lemma listable_forget (may : access → list string → Z → bool) (n : node) :
  ∀ here, listable may here (vfs.forget_file_modes n) = listable may here n.
Proof.
  induction n as [name mode data | name mode es IH] using node_induction;
    intros here; [done |].
  cbn [vfs.forget_file_modes listable]. f_equal.
  induction es as [|e es IHes]; [done |].
  apply Forall_cons in IH as [He IH]. cbn [map forallb].
  by rewrite forget_name, He, (IHes IH).
Qed.

Lemma modes_changeable_forget (own : list string → bool) (keep : string → bool)
    (n : node) :
  ∀ here, modes_changeable own keep here (vfs.forget_file_modes n)
          = modes_changeable own keep here n.
Proof.
  induction n as [name mode data | name mode es IH] using node_induction;
    intros here; [done |].
  cbn [vfs.forget_file_modes modes_changeable].
  induction es as [|e es IHes]; [done |].
  apply Forall_cons in IH as [He IH]. cbn [map forallb].
  by rewrite forget_name, He, (IHes IH).
Qed.

Lemma listable_lookup (may : access → list string → Z → bool) (q : list string) :
  ∀ here d x,
    listable may here d = true → vfs.lookup_at q d = Some x →
    listable may (here ++ q) x = true.
Proof.
  induction q as [|c q IH]; intros here d x Hl; cbn [vfs.lookup_at].
  - intros [= <-]. by rewrite app_nil_r.
  - destruct d as [| name m es]; [done |].
    destruct (vfs.find_entry c es) as [e|] eqn:Hfind; [| done].
    apply find_entry_Some in Hfind as [He Hname]. intros Hx.
    cbn [listable] in Hl. apply andb_true_iff in Hl as [_ Hall].
    rewrite forallb_forall in Hall.
    apply list_elem_of_In, Hall in He. rewrite Hname in He.
    replace (here ++ c :: q) with ((here ++ [c]) ++ q) by (by rewrite <- app_assoc).
    by apply (IH _ e).
Qed.

Lemma listable_passable (may : access → list string → Z → bool) (q : list string) :
  ∀ here d,
    listable may here d = true → vfs.passable (may X_OK) here q d = true.
Proof.
  induction q as [|c q IH]; intros here d Hl; [done |].
  destruct d as [| name m es]; [done |]. cbn [vfs.passable].
  pose proof Hl as Hd. cbn [listable] in Hd.
  apply andb_true_iff in Hd as [Hd _]. apply andb_true_iff in Hd as [_ Hx].
  rewrite Hx. cbn [andb].
  destruct (vfs.find_entry c es) as [e|] eqn:Hfind; [| done].
  apply IH. by apply (listable_lookup may [c] here (Dir name m es) e Hl);
    cbn [vfs.lookup_at]; rewrite Hfind.
Qed.

Lemma modes_changeable_lookup (own : list string → bool) (keep : string → bool)
    (q : list string) :
  ∀ here d x,
    modes_changeable own keep here d = true → vfs.lookup_at q d = Some x →
    modes_changeable own keep (here ++ q) x = true.
Proof.
  induction q as [|c q IH]; intros here d x Hl; cbn [vfs.lookup_at].
  - intros [= <-]. by rewrite app_nil_r.
  - destruct d as [| name m es]; [done |].
    destruct (vfs.find_entry c es) as [e|] eqn:Hfind; [| done].
    apply find_entry_Some in Hfind as [He Hname]. intros Hx.
    cbn [modes_changeable] in Hl. rewrite forallb_forall in Hl.
    apply list_elem_of_In, Hl in He. rewrite Hname in He.
    replace (here ++ c :: q) with ((here ++ [c]) ++ q) by (by rewrite <- app_assoc).
    by apply (IH _ e).
Qed.

Lemma same_view_refl (w : world) : same_view w w.
Proof. by repeat split. Qed.

Lemma same_view_trans (w1 w2 w3 : world) :
  same_view w1 w2 → same_view w2 w3 → same_view w1 w3.
Proof.
  intros (Hf & Hs & Hc) (Hf' & Hs' & Hc'). repeat split; congruence.
Qed.

Lemma permits_same_view (w w' : world) :
  same_view w w' → permits w' = permits w.
Proof. intros (_ & Hs & Hc). unfold permits. by rewrite Hs, Hc. Qed.

Lemma may_chmod_same_view (w w' : world) :
  same_view w w' → may_chmod w' = may_chmod w.
Proof. intros (_ & Hs & Hc). unfold may_chmod. by rewrite Hs, Hc. Qed.

Lemma reaches_same_view (w w' : world) (cs : list string) :
  same_view w w' → os.reaches w' cs = os.reaches w cs.
Proof.
  intros Hv. unfold os.reaches. rewrite (permits_same_view w w' Hv).
  destruct Hv as (Hf & _).
  by rewrite <- passable_forget, Hf, passable_forget.
Qed.

Lemma walk_same_view (w w' : world) (top : string) :
  same_view w w' → (os.walk top w').1 = (os.walk top w).1.
Proof.
  intros Hv. unfold os.walk. cbn [fst]. f_equal.
  destruct (vfs.resolve top) as [cs|]; [| done].
  rewrite (reaches_same_view w w' cs Hv), (permits_same_view w w' Hv).
  destruct (os.reaches w cs); [| done]. destruct Hv as (Hf & _).
  pose proof (lookup_at_forget cs (fs w')) as Hl. rewrite Hf, lookup_at_forget in Hl.
  destruct (vfs.lookup_at cs (fs w')) as [d'|], (vfs.lookup_at cs (fs w)) as [d|];
    try done.
  cbn [option_map] in Hl. injection Hl as Hl.
  by rewrite <- (walk_from_forget _ d'), <- Hl, walk_from_forget.
Qed.

Lemma can_sweep_same_view (w w' : world) (keep : string → bool)
    (top : list string) :
  same_view w w' → can_sweep w' keep top = can_sweep w keep top.
Proof.
  intros Hv. unfold can_sweep.
  rewrite (reaches_same_view w w' top Hv), (permits_same_view w w' Hv),
    (may_chmod_same_view w w' Hv).
  destruct Hv as (Hf & _).
  pose proof (lookup_at_forget top (fs w')) as Hl. rewrite Hf, lookup_at_forget in Hl.
  destruct (vfs.lookup_at top (fs w')) as [d'|], (vfs.lookup_at top (fs w)) as [d|];
    try done.
  cbn [option_map] in Hl. injection Hl as Hl.
  rewrite <- (listable_forget _ d'), <- (modes_changeable_forget _ _ d'), <- Hl.
  by rewrite listable_forget, modes_changeable_forget.
Qed.

(** ** Loops *)

Lemma for_each_app {A} (xs ys : list A) (body : A → M unit) (w : world) :
  for_each (xs ++ ys) body w = (for_each xs body ;; for_each ys body) w.
Proof.
  revert w. induction xs as [|x xs IH]; intros w; [done |].
  cbn [app for_each]. rewrite !bind_run.
  destruct (body x w) as [[[] | e] w1]; [| done]. by rewrite IH, bind_run.
Qed.

Lemma for_each_files (keep : string → bool) (act : string → M unit)
    (root : string) (files : list string) (w : world) :
  for_each files
    (λ file, if negb (keep file) then act (os.path_join root file) else ret tt) w
  = for_each (map (os.path_join root) (List.filter (λ f, negb (keep f)) files))
      act w.
Proof.
  revert w. induction files as [|file files IH]; intros w; [done |].
  cbn [for_each List.filter]. rewrite bind_run.
  destruct (negb (keep file)); cbn [map for_each ret].
  - rewrite bind_run. destruct (act _ w) as [[[] | e] w1]; [apply IH | done].
  - apply IH.
Qed.

(** The two nested loops of a sweep visit the targets one after the other. *)
Lemma for_each_triples (keep : string → bool) (act : string → M unit)
    (triples : list (string * list string * list string)) (w : world) :
  for_each triples
    (λ '(root, _, files),
       for_each files
         (λ file, if negb (keep file) then act (os.path_join root file)
                  else ret tt)) w
  = for_each (sweep_targets keep triples) act w.
Proof.
  revert w. induction triples as [|[[root dirs] files] triples IH]; intros w;
    [done |].
  unfold sweep_targets. cbn [for_each flat_map].
  rewrite for_each_app, !bind_run, for_each_files.
  destruct (for_each _ act w) as [[[] | e] w1]; [apply IH | done].
Qed.

(** One step of a sweep at a path that names a regular file: either the
    mode of that file is changed and the log entry appended, or [chmod]
    raises and nothing has changed. *)
Lemma sweep_step (mode : Z) (msg : string → string) (logs : loc) (s : string)
    (w : world) (cs : list string) (m0 : Z) (d0 : string) :
  vfs.resolve s = Some cs →
  vfs.file_at cs (fs w) = Some (m0, d0) →
  let act := os.chmod s mode ;; builtins.list_append logs (msg s) in
  (∃ n',
     os.reaches w cs = true ∧ may_chmod w cs = true
     ∧ act w = (Ok tt, with_heap (λ l', if Nat.eqb l' logs then heap w logs ++ [msg s]
                                        else heap w l') (with_fs n' w))
     ∧ vfs.forget_file_modes n' = vfs.forget_file_modes (fs w)
     ∧ vfs.file_at cs n' = Some (Z.land mode o7777, d0)
     ∧ ∀ p, p ≠ cs → vfs.file_at p n' = vfs.file_at p (fs w))
  ∨ ((os.reaches w cs && may_chmod w cs = false)
     ∧ ∃ e, act w = (Raise (OSError e), w)).
Proof.
  intros Hres Hfile act. subst act.
  destruct (chmod_file (Z.land mode o7777) cs (fs w) m0 d0 Hfile)
    as (n' & Halter & Hsame & Hother).
  pose proof (chmod_file_forget _ cs (fs w) n' (mk_is_Some _ _ Hfile) Halter)
    as Hforget.
  rewrite bind_run. unfold os.chmod. rewrite Hres, Halter.
  destruct (os.reaches w cs); [| right; by eauto].
  destruct (may_chmod w cs); [| right; by eauto].
  left. by exists n'.
Qed.

(** A sweep over paths that name regular files, however it ends: modes of
    regular files are all that changes in the tree, and the files that are
    not among the paths keep theirs. *)
Lemma sweep_loop_frame (mode : Z) (msg : string → string) (logs : loc)
    (targets : list string) :
  ∀ w r w',
    Forall (λ s, ∃ cs m d, vfs.resolve s = Some cs
                           ∧ vfs.file_at cs (fs w) = Some (m, d)) targets →
    for_each targets
      (λ s, os.chmod s mode ;; builtins.list_append logs (msg s)) w = (r, w') →
    same_view w w'
    ∧ ∀ p m d, Some p ∉ map vfs.resolve targets →
               vfs.file_at p (fs w) = Some (m, d) →
               vfs.file_at p (fs w') = Some (m, d).
Proof.
  induction targets as [|s targets IH]; intros w r w' Hall.
  - intros [= _ <-]. split; [apply same_view_refl | done].
  - apply Forall_cons in Hall as [(cs & m0 & d0 & Hres & Hfile) Hall].
    cbn [for_each]. rewrite bind_run.
    destruct (sweep_step mode msg logs s w cs m0 d0 Hres Hfile)
      as [(n' & _ & _ & -> & Hforget & Hsame & Hother) | (_ & e & ->)].
    2: { intros [= _ <-]. split; [apply same_view_refl | done]. }
    intros Hrun. apply IH in Hrun as [Hview Hrest].
    + split.
      * eapply same_view_trans; [| exact Hview]. by repeat split.
      * intros p m d Hnot Hp. cbn [map] in Hnot.
        apply not_elem_of_cons in Hnot as [Hne Hnot].
        apply (Hrest p m d Hnot). cbn [fs with_heap with_fs].
        rewrite Hother; [done |]. intros ->. by rewrite Hres in Hne.
    + eapply Forall_impl; [exact Hall |].
      intros s' (cs' & m' & d' & Hres' & Hfile'). cbn [fs with_heap with_fs].
      exists cs'. destruct (decide (cs' = cs)) as [-> | Hne].
      * exists (Z.land mode o7777), d0. by rewrite Hsame.
      * exists m', d'. by rewrite (Hother cs' Hne).
Qed.

(** A sweep over paths that name regular files the process can reach and
    may change: every [chmod] succeeds, the files named have the new mode,
    the others and all contents are as before, and one log entry per path
    is appended. *)
Lemma sweep_loop (mode : Z) (msg : string → string) (logs : loc)
    (targets : list string) (w : world) :
  Forall (λ s, ∃ cs m d, vfs.resolve s = Some cs
                         ∧ vfs.file_at cs (fs w) = Some (m, d)
                         ∧ os.reaches w cs = true ∧ may_chmod w cs = true)
         targets →
  ∃ w',
    for_each targets
      (λ s, os.chmod s mode ;; builtins.list_append logs (msg s)) w = (Ok tt, w')
    ∧ (∀ p m d, vfs.file_at p (fs w) = Some (m, d) →
         (Some p ∈ map vfs.resolve targets →
          vfs.file_at p (fs w') = Some (Z.land mode o7777, d))
         ∧ (Some p ∉ map vfs.resolve targets →
            vfs.file_at p (fs w') = Some (m, d)))
    ∧ heap w' logs = heap w logs ++ map msg targets.
Proof.
  revert w. induction targets as [|s targets IH]; intros w Hall.
  - exists w. split; [done |]. split.
    + intros p m d Hp. split; [by intros ?%elem_of_nil | done].
    + by rewrite app_nil_r.
  - apply Forall_cons in Hall as [(cs & m0 & d0 & Hres & Hfile & Hreach & Hown) Hall].
    destruct (sweep_step mode msg logs s w cs m0 d0 Hres Hfile)
      as [(n' & _ & _ & Hstep & Hforget & Hsame & Hother) | (Hno & _)].
    2: { by rewrite Hreach, Hown in Hno. }
    set (w1 := with_heap (λ l', if Nat.eqb l' logs then heap w logs ++ [msg s]
                                else heap w l') (with_fs n' w)) in *.
    assert (Hview : same_view w w1) by (by repeat split).
    assert (Hkeep : ∀ p m d, vfs.file_at p (fs w) = Some (m, d) →
              vfs.file_at p (fs w1)
              = Some (if decide (p = cs) then Z.land mode o7777 else m, d)).
    { intros p m d Hp. cbn. destruct (decide (p = cs)) as [-> | Hne].
      - rewrite Hsame. congruence.
      - by rewrite (Hother p Hne). }
    destruct (IH w1) as (w' & Hrun & Hfiles & Hheap).
    { eapply Forall_impl; [exact Hall |].
      intros s' (cs' & m' & d' & Hres' & Hfile' & Hreach' & Hown'). cbn beta.
      exists cs'. eexists. exists d'. split; [done |].
      split; [by apply Hkeep |].
      by rewrite (reaches_same_view w w1 cs' Hview), (may_chmod_same_view w w1 Hview). }
    exists w'. split; [| split].
    + cbn [for_each]. by rewrite bind_run, Hstep.
    + intros p m d Hp. destruct (Hfiles p _ d (Hkeep p m d Hp)) as [Hin Hout].
      cbn [map]. split.
      * intros Helem. destruct (decide (Some p ∈ map vfs.resolve targets)) as [Hi | Hi].
        -- by apply Hin.
        -- rewrite (Hout Hi). apply elem_of_cons in Helem as [Heq | Helem]; [| done].
           rewrite Hres in Heq. injection Heq as ->. by rewrite decide_True.
      * intros Hnot. apply not_elem_of_cons in Hnot as [Hne Hnot].
        rewrite (Hout Hnot). rewrite decide_False; [done |].
        intros ->. by rewrite Hres in Hne.
    + rewrite Hheap. cbn. rewrite Nat.eqb_refl. by rewrite <- app_assoc.
Qed.

(** ** The walk *)

(** Every triple of the walk describes a directory of the tree: its path
    is the path of the top followed by the names that lead to it. *)
Lemma walk_sound (may : access → list string → Z → bool) (d : node) :
  ∀ top here root dirs files,
    vfs.wf d = true →
    (root, dirs, files) ∈ os.walk_from may top here d →
    ∃ q name mode es,
      vfs.components root = vfs.components top ++ q
      ∧ vfs.lookup_at q d = Some (Dir name mode es)
      ∧ dirs = vfs.dirnames es ∧ files = vfs.filenames es.
Proof.
  induction d as [name mode data | name mode es IH] using node_induction;
    intros top here root dirs files Hwf Hin; cbn [os.walk_from] in Hin.
  - by apply elem_of_nil in Hin.
  - destruct (may R_OK here mode); [| by apply elem_of_nil in Hin].
    apply elem_of_cons in Hin as [[= -> -> ->] | Hin].
    + exists [], name, mode, es. by rewrite app_nil_r.
    + destruct (may X_OK here mode); [| by apply elem_of_nil in Hin].
      apply list_elem_of_In, in_flat_map in Hin as (e & He & Hin).
      apply list_elem_of_In in He, Hin.
      destruct (wf_dir _ _ _ Hwf) as [Hnd Hes].
      destruct (Hes e He) as [Hplain Hwfe].
      rewrite Forall_forall in IH.
      destruct (IH e He _ _ _ _ _ Hwfe Hin) as (q & n' & m' & es' & Hq & Hl & -> & ->).
      exists (node_name e :: q), n', m', es'. split; [| split; [| done]].
      * by rewrite Hq, (components_join _ _ Hplain), <- app_assoc.
      * cbn [vfs.lookup_at]. by rewrite (find_entry_NoDup es e Hnd He).
Qed.

(** Every directory of a tree the process can list has its triple in the
    walk. *)
Lemma walk_complete (may : access → list string → Z → bool) (q : list string) :
  ∀ top here d name mode es,
    vfs.wf d = true →
    listable may here d = true →
    vfs.lookup_at q d = Some (Dir name mode es) →
    ∃ root, (root, vfs.dirnames es, vfs.filenames es) ∈ os.walk_from may top here d
            ∧ vfs.components root = vfs.components top ++ q.
Proof.
  induction q as [|c q IH]; intros top here d name mode es Hwf Hlist;
    cbn [vfs.lookup_at].
  - intros [= ->]. exists top. cbn [listable] in Hlist.
    apply andb_true_iff in Hlist as [Hlist _].
    apply andb_true_iff in Hlist as [Hr _].
    split; [| by rewrite app_nil_r]. cbn [os.walk_from]. rewrite Hr. left.
  - destruct d as [| dn dm des]; [done |].
    destruct (vfs.find_entry c des) as [e|] eqn:Hfind; [| done]. intros Hl.
    pose proof (listable_lookup may [c] here (Dir dn dm des) e Hlist) as Hliste.
    cbn [vfs.lookup_at] in Hliste. rewrite Hfind in Hliste.
    specialize (Hliste eq_refl).
    apply find_entry_Some in Hfind as [He Hname]. subst c.
    destruct (wf_dir _ _ _ Hwf) as [_ Hes].
    destruct (Hes e He) as [Hplain Hwfe].
    destruct (IH (os.path_join top (node_name e)) (here ++ [node_name e]) e
                name mode es Hwfe Hliste Hl) as (root & Hin & Hroot).
    exists root. cbn [listable] in Hlist.
    apply andb_true_iff in Hlist as [Hlist _].
    apply andb_true_iff in Hlist as [Hr Hx]. split.
    + cbn [os.walk_from]. rewrite Hr, Hx. right.
      apply list_elem_of_In, in_flat_map. exists e.
      split; by apply list_elem_of_In.
    + by rewrite Hroot, (components_join _ _ Hplain), <- app_assoc.
Qed.

Lemma filenames_find (es : list node) (f : string) :
  NoDup (map node_name es) → f ∈ vfs.filenames es →
  ∃ m d, vfs.find_entry f es = Some (File f m d).
Proof.
  intros Hnd Hin. unfold vfs.filenames in Hin.
  apply list_elem_of_fmap in Hin as (e & -> & He).
  apply list_elem_of_In, filter_In in He as [He Hfile].
  apply list_elem_of_In in He.
  rewrite (find_entry_NoDup es e Hnd He).
  destruct e as [name m d |]; [by eauto | done].
Qed.

Lemma find_filenames (es : list node) (f name : string) (m : Z) (d : string) :
  vfs.find_entry f es = Some (File name m d) → f ∈ vfs.filenames es.
Proof.
  intros [He Hname]%find_entry_Some. unfold vfs.filenames.
  apply list_elem_of_fmap. exists (File name m d). split; [done |].
  apply list_elem_of_In, filter_In. split; [by apply list_elem_of_In | done].
Qed.

Lemma file_at_app (a b : list string) (n x : node) :
  vfs.lookup_at a n = Some x → vfs.file_at (a ++ b) n = vfs.file_at b x.
Proof. intros Ha. unfold vfs.file_at. by rewrite lookup_at_app, Ha. Qed.

(** A file found at [q ++ [f]]: the directory at [q] lists it. *)
Lemma file_at_last (q : list string) (f : string) (n : node) (m : Z) (d : string) :
  vfs.file_at (q ++ [f]) n = Some (m, d) →
  ∃ name mode es, vfs.lookup_at q n = Some (Dir name mode es)
                  ∧ vfs.find_entry f es = Some (File f m d).
Proof.
  unfold vfs.file_at. rewrite lookup_at_app.
  destruct (vfs.lookup_at q n) as [[| name mode es]|]; cbn [vfs.lookup_at];
    try done.
  destruct (vfs.find_entry f es) as [[fn fm fd |]|] eqn:Hfind; try done.
  intros [= -> ->]. apply find_entry_Some in Hfind as Hname.
  destruct Hname as [_ Hname]. simpl in Hname. subst fn. by eauto.
Qed.

(** The targets of a sweep are regular files below the top ... *)
Lemma targets_sound (may : access → list string → Z → bool) (keep : string → bool)
    (top : string) (here : list string) (d : node) (s : string) :
  vfs.wf d = true →
  s ∈ sweep_targets keep (os.walk_from may top here d) →
  ∃ q f m dat,
    vfs.resolve s = Some (vfs.components top ++ q ++ [f])
    ∧ vfs.file_at (q ++ [f]) d = Some (m, dat)
    ∧ keep f = false.
Proof.
  intros Hwf Hin. unfold sweep_targets in Hin.
  apply list_elem_of_In, in_flat_map in Hin as ([[root dirs] files] & Ht & Hin).
  apply list_elem_of_In in Ht, Hin.
  apply list_elem_of_fmap in Hin as (f & -> & Hf).
  apply list_elem_of_In, filter_In in Hf as [Hf Hkeep].
  apply list_elem_of_In in Hf. apply negb_true_iff in Hkeep.
  destruct (walk_sound may d top here root dirs files Hwf Ht)
    as (q & name & mode & es & Hroot & Hl & _ & ->).
  destruct (wf_dir _ _ _ (wf_lookup q d _ Hwf Hl)) as [Hnd Hes].
  destruct (filenames_find es f Hnd Hf) as (m & dat & Hfind).
  apply find_entry_Some in Hfind as Hplain. destruct Hplain as [He _].
  apply Hes in He as [Hplain _]. simpl in Hplain.
  exists q, f, m, dat. split; [| split; [| done]].
  - by rewrite (resolve_join _ _ Hplain), Hroot, <- app_assoc.
  - rewrite (file_at_app q [f] d _ Hl). unfold vfs.file_at.
    cbn [vfs.lookup_at]. by rewrite Hfind.
Qed.

(** ... and, in a tree the process can list, every regular file below the
    top that is not kept back is a target. *)
Lemma targets_complete (may : access → list string → Z → bool)
    (keep : string → bool) (top : string) (here : list string) (d : node)
    (q : list string) (f : string) (m : Z) (dat : string) :
  vfs.wf d = true →
  listable may here d = true →
  vfs.file_at (q ++ [f]) d = Some (m, dat) →
  keep f = false →
  ∃ s, s ∈ sweep_targets keep (os.walk_from may top here d)
       ∧ vfs.resolve s = Some (vfs.components top ++ q ++ [f]).
Proof.
  intros Hwf Hlist Hfile Hkeep.
  destruct (file_at_last q f d m dat Hfile) as (name & mode & es & Hl & Hfind).
  destruct (walk_complete may q top here d name mode es Hwf Hlist Hl)
    as (root & Hin & Hroot).
  destruct (wf_dir _ _ _ (wf_lookup q d _ Hwf Hl)) as [_ Hes].
  apply find_entry_Some in Hfind as He. destruct He as [He _].
  apply Hes in He as [Hplain _]. simpl in Hplain.
  exists (os.path_join root f). split.
  - unfold sweep_targets. apply list_elem_of_In, in_flat_map.
    exists (root, vfs.dirnames es, vfs.filenames es).
    split; [by apply list_elem_of_In |].
    apply list_elem_of_In, list_elem_of_fmap. exists f. split; [done |].
    apply list_elem_of_In, filter_In. split.
    + apply list_elem_of_In. by eapply find_filenames.
    + by rewrite Hkeep.
  - by rewrite (resolve_join _ _ Hplain), Hroot, <- app_assoc.
Qed.
(** ** The permission sweeps *)

Lemma walk_run (top : string) (w : world) :
  os.walk top w
  = (Ok match vfs.resolve top with
        | Some cs =>
            if os.reaches w cs then
              match vfs.lookup_at cs (fs w) with
              | Some d => os.walk_from (permits w) top cs d
              | None => []
              end
            else []
        | None => []
        end, w).
Proof. reflexivity. Qed.

Lemma resolve_components (p : string) (cs : list string) :
  vfs.resolve p = Some cs → vfs.components p = cs.
Proof. unfold vfs.resolve. destruct (String.eqb p ""); congruence. Qed.

(** What a sweep does where the process has the permissions it asks for,
    whatever the mode and the files kept back. *)
Lemma sweep_run (keep : string → bool) (mode : Z) (msg : string → string)
    (local_dir : string) (logs : loc) (w : world) (top : list string) :
  vfs.wf (fs w) = true →
  vfs.resolve local_dir = Some top →
  can_sweep w keep top = true →
  ∃ w' triples,
    (os.walk local_dir w).1 = Ok triples
    ∧ (let* triples := os.walk local_dir in
       for_each triples
         (λ '(root, _, files),
            for_each files
              (λ file, if negb (keep file)
                       then os.chmod (os.path_join root file) mode ;;
                            builtins.list_append logs (msg (os.path_join root file))
                       else ret tt))) w
      = (Ok tt, w')
    ∧ (∀ q name m data,
         vfs.file_at (top ++ q ++ [name]) (fs w) = Some (m, data) →
         vfs.file_at (top ++ q ++ [name]) (fs w')
         = Some (if keep name then m else Z.land mode o7777, data))
    ∧ heap w' logs = heap w logs ++ map msg (sweep_targets keep triples)
    ∧ same_view w w'.
Proof.
  intros Hwf Hres Hcan. rewrite bind_run, walk_run, Hres. cbn [fst].
  pose proof (resolve_components _ _ Hres) as Htop.
  unfold can_sweep in Hcan. apply andb_true_iff in Hcan as [Hreach Hcan].
  rewrite Hreach.
  destruct (vfs.lookup_at top (fs w)) as [d|] eqn:Hd; [| done].
  apply andb_true_iff in Hcan as [Hlist Hown].
  pose proof (wf_lookup top (fs w) d Hwf Hd) as Hwfd.
  set (act := λ s, os.chmod s mode ;; builtins.list_append logs (msg s)).
  set (targets := sweep_targets keep (os.walk_from (permits w) local_dir top d)).
  assert (Hfiles : Forall (λ s, ∃ cs m d, vfs.resolve s = Some cs
                                          ∧ vfs.file_at cs (fs w) = Some (m, d)
                                          ∧ os.reaches w cs = true
                                          ∧ may_chmod w cs = true) targets).
  { apply Forall_forall. intros s Hs.
    destruct (targets_sound (permits w) keep local_dir top d s Hwfd Hs)
      as (q & f & m & dat & Hs' & Hfile & Hkeep).
    exists (top ++ q ++ [f]), m, dat. rewrite Htop in Hs'.
    split; [done |]. split; [by rewrite (file_at_app _ _ _ _ Hd) |]. split.
    - unfold os.reaches. rewrite passable_app, Hd. cbn [app].
      fold (os.reaches w top). rewrite Hreach. cbn [andb].
      by apply listable_passable.
    - destruct (file_at_last q f d m dat Hfile) as (dn & dm & es & Hq & Hfind).
      pose proof (modes_changeable_lookup _ keep (q ++ [f]) top d (File f m dat)
                    Hown) as Hf.
      rewrite lookup_at_app, Hq in Hf. cbn [vfs.lookup_at] in Hf.
      rewrite Hfind in Hf. specialize (Hf eq_refl).
      cbn [modes_changeable] in Hf. by rewrite Hkeep in Hf. }
  destruct (sweep_loop mode msg logs targets w Hfiles)
    as (w' & Hrun & Hmodes & Hheap).
  exists w', (os.walk_from (permits w) local_dir top d).
  split; [done |]. split; [| split; [| split; [done |]]].
  - rewrite <- Hrun. apply (for_each_triples keep act).
  - intros q name m data Hfile.
    destruct (Hmodes _ _ _ Hfile) as [Hin Hout].
    rewrite (file_at_app _ _ _ _ Hd) in Hfile.
    destruct (keep name) eqn:Hkeep.
    + apply Hout. intros Hel.
      apply list_elem_of_fmap in Hel as (s & Hs' & Hs).
      destruct (targets_sound (permits w) keep local_dir top d s Hwfd Hs)
        as (q' & f & _ & _ & Hres' & _ & Hf).
      rewrite Hres', Htop in Hs'. injection Hs' as Heq.
      apply app_inv_head in Heq. apply app_inj_tail in Heq as [_ ->].
      congruence.
    + apply Hin.
      destruct (targets_complete (permits w) keep local_dir top d q name m data
                  Hwfd Hlist Hfile Hkeep) as (s & Hs & Hres').
      apply list_elem_of_fmap. exists s. split; [| done].
      by rewrite Hres', Htop.
  - apply (sweep_loop_frame mode msg logs targets w (Ok tt) w'); [| done].
    eapply Forall_impl; [exact Hfiles |].
    intros s (cs & m & dat & ? & ? & _). by exists cs, m, dat.
Qed.


(** The mode [0o444], 292, is read for owner, group and others and nothing
    else; the mode [0o777], 511, is everything for everyone. *)
Lemma read_only_bits :
  292 = Z.lor S_IRUSR (Z.lor S_IRGRP S_IROTH)
  ∧ Z.land 292 (Z.lor S_IWUSR (Z.lor S_IWGRP S_IWOTH)) = 0
  ∧ Z.land 292 (Z.lor S_IXUSR (Z.lor S_IXGRP S_IXOTH)) = 0
  ∧ 511 = Z.lor 292 (Z.lor (Z.lor S_IWUSR (Z.lor S_IWGRP S_IWOTH))
                           (Z.lor S_IXUSR (Z.lor S_IXGRP S_IXOTH))).
Proof. repeat split. Qed.

(** C8, as the code has it.  The tree is well formed and [local_dir] leads
    to a node of it; the process can search the directories on the way,
    can list the directory and every directory below it, and may change
    the mode of the files whose name does not end with the excluded
    extension (it owns them, or is the superuser).  Then the read-only
    sweep ends without an error; below [local_dir], every file whose name
    does not end with the extension has the mode 292, which is [0o444]:
    read for owner, group and others and nothing else; and every file
    whose name ends with it has the mode it had.  The contents of the
    files are as before. *)
Theorem read_only_sweep (local_dir exclude_ext : string) (logs : loc) (w : world)
    (top : list string) :
  vfs.wf (fs w) = true →
  vfs.resolve local_dir = Some top →
  can_sweep w (λ f, str.endswith f exclude_ext) top = true →
  ∃ w',
    deployment.set_permission_readonly local_dir exclude_ext logs w = (Ok tt, w')
    ∧ ∀ q name mode data,
        vfs.file_at (top ++ q ++ [name]) (fs w) = Some (mode, data) →
        vfs.file_at (top ++ q ++ [name]) (fs w')
        = Some (if str.endswith name exclude_ext then mode else 292, data).
Proof.
  intros Hwf Hres Hcan.
  destruct (sweep_run (λ f, str.endswith f exclude_ext) o444
              (λ s, "Set " +:+ s +:+ " to read-only.") local_dir logs w top
              Hwf Hres Hcan) as (w' & triples & _ & Hrun & Hfiles & _).
  exists w'. split; [exact Hrun |].
  intros q name mode data Hfile. by rewrite (Hfiles q name mode data Hfile).
Qed.

Lemma read_only_sweep_witness :
  ∃ w',
    deployment.set_permission_readonly "./test" ".ipynb" 0%nat
      (demo_world 0 "" "" (Raise (OSError ""))) = (Ok tt, w')
    ∧ vfs.file_at ["test"; "a.txt"] (fs w') = Some (292, "A")
    ∧ vfs.file_at ["test"; "b.ipynb"] (fs w') = Some (420, "B")
    ∧ vfs.file_at ["test"; "sub"; "c.py"] (fs w') = Some (292, "C")
    ∧ vfs.file_at ["test"; "sub"; "d.ipynb"] (fs w') = Some (384, "D").
Proof.
  destruct (read_only_sweep "./test" ".ipynb" 0%nat
              (demo_world 0 "" "" (Raise (OSError ""))) ["test"])
    as (w' & Hrun & Hfiles).
  - reflexivity.
  - reflexivity.
  - reflexivity.
  - exists w'. split; [exact Hrun |].
    split; [exact (Hfiles [] "a.txt" 420 "A" eq_refl) |].
    split; [exact (Hfiles [] "b.ipynb" 420 "B" eq_refl) |].
    split; [exact (Hfiles ["sub"] "c.py" 420 "C" eq_refl) |].
    exact (Hfiles ["sub"] "d.ipynb" 384 "D" eq_refl).
Defined.

(** C8 as stated fails where the process lacks a permission.  A directory
    it cannot read is passed over by the walk without an error: the sweep
    of [./test] ends well and [test/locked/e.txt], whose name does not end
    with [.ipynb], has the mode it had.  And a file that belongs to someone
    else stops the sweep with the error of [chmod]: with [.py] excluded,
    [test/a.txt] is read-only, the sweep fails at [test/b.ipynb], and
    [test/sub/d.ipynb], which comes later, has the mode it had. *)
Lemma read_only_sweep_counterexample :
  (let run := deployment.set_permission_readonly "./test" ".ipynb" 0%nat
                locked_world in
   vfs.wf (fs locked_world) = true
   ∧ run.1 = Ok tt
   ∧ vfs.file_at ["test"; "a.txt"] (fs run.2) = Some (292, "A")
   ∧ str.endswith "e.txt" ".ipynb" = false
   ∧ vfs.file_at ["test"; "locked"; "e.txt"] (fs locked_world) = Some (420, "E")
   ∧ vfs.file_at ["test"; "locked"; "e.txt"] (fs run.2) = Some (420, "E"))
  ∧ (let run := deployment.set_permission_readonly "./test" ".py" 0%nat
                  foreign_world in
     vfs.wf (fs foreign_world) = true
     ∧ run.1 = Raise (OSError "Operation not permitted")
     ∧ vfs.file_at ["test"; "a.txt"] (fs run.2) = Some (292, "A")
     ∧ vfs.file_at ["test"; "b.ipynb"] (fs run.2) = Some (420, "B")
     ∧ str.endswith "d.ipynb" ".py" = false
     ∧ vfs.file_at ["test"; "sub"; "d.ipynb"] (fs run.2) = Some (384, "D")).
Proof. cbv zeta. repeat split; vm_compute; reflexivity. Qed.
(** ** The environment file *)

Lemma find_entry_app_new (c : string) (es : list node) (x : node) :
  vfs.find_entry c es = None → node_name x = c →
  vfs.find_entry c (es ++ [x]) = Some x.
Proof.
  intros Hnone Hname. induction es as [|e es IH]; simpl in *.
  - by rewrite Hname, String.eqb_refl.
  - destruct (String.eqb (node_name e) c); [done | by apply IH].
Qed.

Lemma create_or_truncate_name (name : string) (mask : Z)
    (may_create may_write : Z → bool) (x y : node) :
  vfs.create_or_truncate name mask may_create may_write x = Some y →
  node_name y = node_name x.
Proof.
  destruct x as [| dn dm es]; simpl; [done |].
  destruct (vfs.find_entry name es) as [[fn m d |]|]; try done.
  - destruct (may_write m); [| done].
    destruct (vfs.alter_entry name _ es); [| done]. by intros [= <-].
  - destruct (may_create dm); [| done]. by intros [= <-].
Qed.

(** Opening for writing in a directory where the name is that of a regular
    file the process may write to, or is free in a directory the process
    may write to, leaves an empty file of that name. *)
Lemma create_or_truncate_spec (name : string) (mask : Z)
    (may_create may_write : Z → bool) (dn : string) (dm : Z) (es : list node) :
  match vfs.find_entry name es with
  | Some (File _ m _) => may_write m = true
  | Some (Dir _ _ _) => False
  | None => may_create dm = true
  end →
  ∃ es' m',
    vfs.create_or_truncate name mask may_create may_write (Dir dn dm es)
    = Some (Dir dn dm es')
    ∧ vfs.find_entry name es' = Some (File name m' "").
Proof.
  intros Hmay. simpl.
  destruct (vfs.find_entry name es) as [[fn m d | n m sub]|] eqn:Hfind.
  - rewrite Hmay.
    destruct (alter_entry_succeeds name (λ _, Some (File name m "")) es _ _
                Hfind eq_refl) as [es' Hes'].
    rewrite Hes'. exists es', m. split; [done |].
    assert (Hg : ∀ e e' : node, node_name e = name →
                   (λ _ : node, Some (File name m "")) e = Some e' →
                   node_name e' = name) by (by intros e e' _ [= <-]).
    destruct (alter_entry_find name _ es es' Hg Hes')
      as [(e & e' & _ & [= <-] & Hfind') _].
    exact Hfind'.
  - done.
  - rewrite Hmay. eexists _, _. split; [done |]. by apply find_entry_app_new.
Qed.

Lemma append_file (s : string) (cs : list string) (n : node) (m : Z) (d : string) :
  vfs.file_at cs n = Some (m, d) →
  ∃ n', vfs.alter_at (vfs.append_data s) cs n = Some n'
        ∧ vfs.file_at cs n' = Some (m, d +:+ s).
Proof.
  unfold vfs.file_at at 1.
  destruct (vfs.lookup_at cs n) as [[name m1 d1 |]|] eqn:Hlook; try done.
  intros [= -> ->].
  pose proof (λ x y Hf, same_shape_name x y (append_data_shape s x y Hf)) as Hname.
  destruct (alter_at_lookup _ Hname cs n _ (File name m (d +:+ s)) Hlook eq_refl)
    as (n' & Hn' & Hlook').
  exists n'. split; [done |]. unfold vfs.file_at. by rewrite Hlook'.
Qed.

(** The loop of [create_env_file]: the lines are appended in order. *)
Lemma write_lines (f : io.file) (env_config : list (string * string)) (w : world)
    (m : Z) (d : string) :
  vfs.file_at f (fs w) = Some (m, d) →
  ∃ w',
    for_each env_config
      (λ '(key, value),
         io.write f (key +:+ " = '" +:+ value +:+ "'" +:+ deployment.nl)) w
    = (Ok tt, w')
    ∧ vfs.file_at f (fs w') = Some (m, d +:+ concat_lines (map env_line env_config))
    ∧ console w' = console w.
Proof.
  revert w d. induction env_config as [|[key value] env_config IH]; intros w d Hfile.
  - exists w. cbn. by rewrite append_nil_r.
  - destruct (append_file (env_line (key, value)) f (fs w) m d Hfile)
      as (n' & Halter & Hfile').
    destruct (IH (with_fs n' w) _ Hfile') as (w' & Hrun & Hdata & Hconsole).
    exists w'. split; [| split].
    + cbn [for_each]. rewrite bind_run. unfold io.write at 1.
      unfold env_line in Halter. cbn [fst snd] in Halter.
      unfold deployment.nl. by rewrite Halter.
    + rewrite Hdata. cbn [map concat_lines]. by rewrite append_assoc.
    + exact Hconsole.
Qed.

Lemma opened_fs (cs : list string) (f' : node) (w : world) :
  fs (io.opened cs f' w) = f'.
Proof. unfold io.opened. by destruct (vfs.file_at cs (fs w)). Qed.

Lemma opened_console (cs : list string) (f' : node) (w : world) :
  console (io.opened cs f' w) = console w.
Proof. unfold io.opened. by destruct (vfs.file_at cs (fs w)). Qed.

(** The run of [create_env_file] in a directory that can take the file. *)
Lemma create_env_file_run (local_dir : string)
    (env_config : list (string * string)) (w : world) (top : list string) :
  vfs.resolve local_dir = Some top →
  can_write_in w top ".env" = true →
  ∃ w' m',
    deployment.create_env_file local_dir env_config w = (Ok tt, w')
    ∧ vfs.file_at (top ++ [".env"]) (fs w')
      = Some (m', concat_lines (map env_line env_config))
    ∧ console w'
      = console w ++ ["Creating .env file at " +:+ os.path_join local_dir ".env"].
Proof.
  intros Hres Hcan.
  pose proof (resolve_components _ _ Hres) as Htop.
  unfold can_write_in in Hcan. apply andb_true_iff in Hcan as [Hreach Hcan].
  destruct (vfs.lookup_at top (fs w)) as [[| dn dm es]|] eqn:Hdir; try done.
  destruct (create_or_truncate_spec ".env" (umask w) (permits w W_OK top)
              (permits w W_OK (top ++ [".env"])) dn dm es)
    as (es' & m' & Hcreate & Hfind).
  { by destruct (vfs.find_entry ".env" es) as [[]|]. }
  destruct (alter_at_lookup _ (create_or_truncate_name ".env" (umask w) _ _)
              top (fs w) _ _ Hdir Hcreate) as (n1 & Halter & Hlook).
  set (w0 := with_console
               (console w ++ ["Creating .env file at "
                              +:+ os.path_join local_dir ".env"]) w).
  assert (Hopen : io.open_w (os.path_join local_dir ".env") w0
                  = (Ok (top ++ [".env"]), io.opened (top ++ [".env"]) n1 w0)).
  { unfold io.open_w.
    rewrite (resolve_join local_dir ".env" eq_refl), Htop, rev_unit, rev_involutive.
    change (os.reaches w0 (top ++ [".env"])) with (os.reaches w (top ++ [".env"])).
    rewrite Hreach. cbn [rev app].
    change (permits w0) with (permits w). change (umask w0) with (umask w).
    change (fs w0) with (fs w). by rewrite Halter. }
  assert (Hempty : vfs.file_at (top ++ [".env"])
                     (fs (io.opened (top ++ [".env"]) n1 w0)) = Some (m', "")).
  { rewrite opened_fs, (file_at_app _ _ _ _ Hlook). unfold vfs.file_at.
    cbn [vfs.lookup_at]. by rewrite Hfind. }
  destruct (write_lines (top ++ [".env"]) env_config _ m' "" Hempty)
    as (w' & Hrun & Hdata & Hconsole).
  exists w', m'. split; [| split; [exact Hdata |]].
  - unfold deployment.create_env_file, io.with_open_w.
    rewrite bind_run. cbn [builtins.print]. fold w0.
    rewrite bind_run, Hopen. by rewrite Hrun.
  - by rewrite Hconsole, opened_console.
Qed.

(** C7, as the code has it.  [local_dir] leads to a directory; the process
    can search the directories on the way, that directory included; an
    entry [.env] of the directory is a regular file the process may write
    to, and where there is no such entry the process may write to the
    directory.  Then [create_env_file] ends without an error and the file
    [.env] of that directory holds, for the entries in order, the lines
    [KEY = 'VALUE'], each followed by a line feed, and nothing else:
    whatever a file of that name held before is gone. *)
Theorem create_env_file_spec (local_dir : string)
    (env_config : list (string * string)) (w : world) (top : list string) :
  vfs.resolve local_dir = Some top →
  can_write_in w top ".env" = true →
  ∃ w' m',
    deployment.create_env_file local_dir env_config w = (Ok tt, w')
    ∧ vfs.file_at (top ++ [".env"]) (fs w')
      = Some (m', concat_lines (map env_line env_config))
    ∧ console w' = console w ++ ["Creating .env file at " +:+ os.path_join local_dir ".env"].
Proof. apply create_env_file_run. Qed.

Lemma create_env_file_spec_witness :
  ∃ w' m',
    deployment.create_env_file "./test" [("KEY", "value")]
      (demo_world 0 "" "" (Raise (OSError ""))) = (Ok tt, w')
    ∧ vfs.file_at ["test"; ".env"] (fs w')
      = Some (m', "KEY = 'value'" +:+ String (ascii_of_nat 10) EmptyString).
Proof.
  destruct (create_env_file_spec "./test" [("KEY", "value")]
              (demo_world 0 "" "" (Raise (OSError ""))) ["test"])
    as (w' & m' & Hrun & Hfile & _).
  - reflexivity.
  - reflexivity.
  - exists w', m'. split; [exact Hrun | exact Hfile].
Defined.

(** C7 as stated fails where the process may not write.  The directory
    [test] holds a read-only [.env] that belongs to the process, which is
    not the superuser: [open] raises, and the file is not overwritten. *)
Lemma create_env_file_counterexample :
  let run := deployment.create_env_file "./test" [("KEY", "value")]
               read_only_env_world in
  vfs.file_at ["test"; ".env"] (fs read_only_env_world) = Some (292, "OLD = 'x'")
  ∧ run.1 = Raise (OSError "cannot open for writing")
  ∧ vfs.file_at ["test"; ".env"] (fs run.2) = Some (292, "OLD = 'x'").
Proof. cbv zeta. repeat split. Qed.

(** An existing [.env] the process may write to is replaced, not appended
    to, and keeps its mode. *)
Example create_env_file_overwrites :
  let w := with_fs (Dir "" 493 [Dir "test" 493 [File ".env" 384 "OLD = 'x'"]])
             (demo_world 0 "" "" (Raise (OSError ""))) in
  fs (deployment.create_env_file "test" [("KEY", "value"); ("A", "b")] w).2
  = Dir "" 493
      [Dir "test" 493
         [File ".env" 384
            ("KEY = 'value'" +:+ String (ascii_of_nat 10) EmptyString
             +:+ "A = 'b'" +:+ String (ascii_of_nat 10) EmptyString)]].
Proof. reflexivity. Qed.

Lemma contains_append (c : ascii) (a b : string) :
  str.contains c (a +:+ b) = str.contains c a || str.contains c b.
Proof.
  induction a as [|x a IH]; [done |].
  change (String x a +:+ b) with (String x (a +:+ b)).
  cbn [str.contains]. by rewrite IH, orb_assoc.
Qed.

(** Read back line by line, the file has one line per entry (and the empty
    piece after the last line feed), provided no key and no value holds a
    line feed itself. *)
Lemma env_file_lines (env_config : list (string * string)) :
  Forall (λ kv, str.contains (ascii_of_nat 10) kv.1 = false
                ∧ str.contains (ascii_of_nat 10) kv.2 = false) env_config →
  str.split (ascii_of_nat 10) (concat_lines (map env_line env_config))
  = map (λ kv, kv.1 +:+ " = '" +:+ kv.2 +:+ "'") env_config ++ [""].
Proof.
  induction env_config as [|[key value] env_config IH]; intros Hall; [done |].
  apply Forall_cons in Hall as [[Hkey Hvalue] Hall]. cbn [fst snd] in *.
  cbn [map concat_lines app]. unfold env_line at 1. cbn [fst snd].
  replace ((key +:+ " = '" +:+ value +:+ "'" +:+ String (ascii_of_nat 10) "")
           +:+ concat_lines (map env_line env_config))
    with ((key +:+ " = '" +:+ value +:+ "'")
          +:+ String (ascii_of_nat 10) (concat_lines (map env_line env_config)))
    by (by rewrite !append_assoc).
  rewrite split_app_sep, (IH Hall), split_no_sep; [done |].
  rewrite !contains_append, Hkey, Hvalue. reflexivity.
Qed.
(** ** Side remarks *)

(** An empty commit hash is no commit hash. *)
Lemma empty_commit_hash `{Library} (repo_url branch local_dir : string)
    (logs : loc) (w : world) :
  deployment.clone_or_update_repo repo_url branch (Some "") local_dir logs w
  = deployment.clone_or_update_repo repo_url branch None local_dir logs w.
Proof. reflexivity. Qed.

(** X10: the other sweep.  In a well-formed tree where the process can
    list [local_dir] and every directory below it and may change the mode
    of every file there, [set_permission_full] ends without an error and
    every file below [local_dir], whatever its name, then has the mode
    511, which is [0o777], and the contents it had. *)
Lemma full_sweep (local_dir : string) (logs : loc) (w : world) (top : list string) :
  vfs.wf (fs w) = true →
  vfs.resolve local_dir = Some top →
  can_sweep w (λ _, false) top = true →
  ∃ w',
    deployment.set_permission_full local_dir logs w = (Ok tt, w')
    ∧ ∀ q name mode data,
        vfs.file_at (top ++ q ++ [name]) (fs w) = Some (mode, data) →
        vfs.file_at (top ++ q ++ [name]) (fs w') = Some (511, data).
Proof.
  intros Hwf Hres Hcan.
  destruct (sweep_run (λ _, false) o777
              (λ s, "Set " +:+ s +:+ " to full permission.") local_dir logs w top
              Hwf Hres Hcan) as (w' & triples & _ & Hrun & Hfiles & _).
  exists w'. split; [exact Hrun |].
  intros q name mode data Hfile. by rewrite (Hfiles q name mode data Hfile).
Qed.

Lemma full_sweep_witness :
  ∃ w',
    deployment.set_permission_full "./test" 0%nat
      (demo_world 0 "" "" (Raise (OSError ""))) = (Ok tt, w')
    ∧ vfs.file_at ["test"; "b.ipynb"] (fs w') = Some (511, "B")
    ∧ vfs.file_at ["test"; "sub"; "d.ipynb"] (fs w') = Some (511, "D").
Proof.
  destruct (full_sweep "./test" 0%nat (demo_world 0 "" "" (Raise (OSError "")))
              ["test"])
    as (w' & Hrun & Hfiles).
  - reflexivity.
  - reflexivity.
  - reflexivity.
  - exists w'. split; [exact Hrun |].
    split; [exact (Hfiles [] "b.ipynb" 420 "B" eq_refl) |].
    exact (Hfiles ["sub"] "d.ipynb" 384 "D" eq_refl).
Defined.

(** * Further properties *)

(** ** The command runner, whatever the process does *)

Lemma after_command_console (command : list string) (w : world) :
  console (after_command command w) = console w
  ∧ posted (after_command command w) = posted w.
Proof.
  unfold after_command.
  by destruct (programs w (spawned w) command (fs w)) as [[] ?].
Qed.

Lemma after_command_issued (command : list string) (w : world) :
  issued w (after_command command w)
  = [(command, (programs w (spawned w) command (fs w)).1)].
Proof.
  apply issued_app. unfold after_command.
  by destruct (programs w (spawned w) command (fs w)) as [[] ?].
Qed.

Lemma lstrip_all_space (s : string) :
  str.all_space s = true → str.lstrip s = "".
Proof.
  induction s as [|c s IH]; cbn [str.all_space str.lstrip]; [done |].
  intros [Hc Hs]%andb_true_iff. rewrite Hc. by apply IH.
Qed.

Lemma strip_all_space (s : string) : str.all_space s = true → str.strip s = "".
Proof. intros Hs. unfold str.strip. by rewrite (lstrip_all_space s Hs). Qed.

Section CommandRunnerMore.
Context `{Library}.

(** X1: [execute_command] calls [subprocess.run] exactly once, with the
    command it was given, and touches neither the list objects nor the
    console.  When the process exits, it returns a dict with two keys
    whose [success] entry tells whether the status was zero.  In every
    other case the exception of [subprocess.run] leaves it: the [OSError]
    of a process that could not be started, the [UnicodeDecodeError] of
    an output that is not text, the [IndexError] of an empty command and
    the [ValueError] of an argument that cannot be handed over. *)
Theorem execute_command_one_call (command : list string) (w : world) :
  let run := deployment.execute_command command w in
  ∃ o,
    issued w run.2 = [(command, o)]
    ∧ heap run.2 = heap w ∧ console run.2 = console w
    ∧ match o with
      | Exited rc _ _ =>
          ∃ d, run.1 = Ok d
               ∧ dict_get "success" d = Some (VBool (rc =? 0))
               ∧ map fst d = ["success"; if rc =? 0 then "output" else "error"]
      | SpawnError msg => run.1 = Raise (OSError msg)
      | NotText msg => run.1 = Raise (UnicodeDecodeError msg)
      | NoProgram msg => run.1 = Raise (IndexError msg)
      | BadArgument msg => run.1 = Raise (ValueError msg)
      end.
Proof.
  intros run. subst run. rewrite execute_command_eq. cbn [fst snd].
  exists (programs w (spawned w) command (fs w)).1.
  split; [apply after_command_issued |].
  split; [apply after_command_heap |].
  split; [apply after_command_console |].
  destruct (programs w (spawned w) command (fs w)) as [[rc out err | | | |] f'];
    cbn [fst command_result]; [| done ..].
  destruct (rc =? 0); by eexists.
Qed.

(** X2: a standard error that is not empty but holds white space only
    gives an empty error message: [str(e)] is used for the empty standard
    error alone. *)
Theorem blank_stderr_empty_error (command : list string) (w : world)
    (rc : Z) (out err : string) (f' : node) :
  programs w (spawned w) command (fs w) = (Exited rc out err, f') →
  rc ≠ 0 → err ≠ "" → str.all_space err = true →
  (deployment.execute_command command w).1
  = Ok [("success", VBool false); ("error", VStr "")].
Proof.
  intros Hp Hrc Herr Hblank. rewrite execute_command_eq, Hp.
  cbn [fst command_result]. apply Z.eqb_neq in Hrc. rewrite Hrc.
  apply truthy_true in Herr. by rewrite Herr, (strip_all_space err Hblank).
Qed.

End CommandRunnerMore.

Lemma blank_stderr_empty_error_witness :
  (@deployment.execute_command demo_library ["git"; "fetch"]
     (demo_world 1 "" "  " (Raise (OSError "")))).1
  = Ok [("success", VBool false); ("error", VStr "")].
Proof.
  apply (@blank_stderr_empty_error demo_library ["git"; "fetch"]
           (demo_world 1 "" "  " (Raise (OSError ""))) 1 "" "  " demo_root).
  - reflexivity.
  - discriminate.
  - discriminate.
  - reflexivity.
Defined.

(** ** The repository synchroniser, run by run *)

Section SynchronizerRuns.
Context `{Library}.

Ltac sync_log := rewrite bind_run, list_append_run; cbv beta iota.

Ltac sync_command :=
  rewrite execute_command_eq; unfold after_command;
  cbn [spawned fs programs heap console posted with_heap with_fs with_spawned];
  let rc := fresh "rc" in
  let E := fresh "Hrun" in
  match goal with
  | |- context [programs ?a ?b ?c ?d] =>
      destruct (programs a b c d) as [[rc ? ?|?|?|?|?] ?] eqn:E
  end;
  cbn [fst snd command_result started];
  cbn [spawned fs programs heap console posted with_heap with_fs with_spawned];
  [destruct (Z.eqb_spec rc 0); [subst rc|] | ..].

Ltac sync_look := rewrite ?bind_run, ?getitem_success;
                  cbv beta iota delta [negb value_truthy].

(** The result of a run that ended with the process [(cmd, o)]. *)
Ltac sync_result :=
  cbn [command_result];
  repeat match goal with
         | Hne : ?rc ≠ 0 |- context [?rc =? 0] =>
             rewrite (proj2 (Z.eqb_neq rc 0) Hne)
         end;
  reflexivity.

Ltac sync_status :=
  solve [ cbn [succeeded snd]; intros;
          repeat match goal with
                 | Hs : (_ =? 0) = true |- _ => apply Z.eqb_eq in Hs
                 | Hs : false = true |- _ => discriminate Hs
                 end;
          first [ done | congruence ] ].

(** Closes a run that has come to its end. *)
Ltac sync_leaf :=
  unfold ret; cbn [fst snd];
  erewrite issued_app;
  [| cbn [spawned with_heap with_fs with_spawned]; rewrite <- ?app_assoc;
     reflexivity];
  cbn [app];
  first [ eexists [], _, _; split; [reflexivity |]
        | eexists [_], _, _; split; [reflexivity |]
        | eexists [_; _], _, _; split; [reflexivity |] ];
  split; [sync_result |];
  split; [repeat (constructor; [reflexivity |]); constructor |];
  split; [cbn [app map fst]; eexists; cbn [app]; reflexivity |];
  split; [first [ sync_status | intros _; reflexivity ] |];
  split; [cbn [heap with_heap with_fs with_spawned]; rewrite ?Nat.eqb_refl, <- ?app_assoc;
          reflexivity |];
  split; [intros l' Hl'; apply Nat.eqb_neq in Hl';
          cbn [heap with_heap with_fs with_spawned]; by rewrite ?Hl' |];
  split; reflexivity.

(** Every run of the synchroniser, in one statement. *)
Lemma sync_run (repo_url branch : string) (commit_hash : option string)
    (local_dir : string) (logs : loc) (w : world) (present : bool) :
  let run := deployment.clone_or_update_repo repo_url branch commit_hash
               local_dir logs w in
  let plan := first_command present repo_url branch local_dir
              :: later_commands branch commit_hash local_dir in
  (os.path_exists local_dir w).1 = Ok present →
  ∃ l cmd o,
    issued w run.2 = l ++ [(cmd, o)]
    ∧ run.1 = command_result cmd o
    ∧ Forall (λ e, succeeded e.2 = true) l
    ∧ map fst (l ++ [(cmd, o)]) `prefix_of` plan
    ∧ (succeeded o = true → map fst (l ++ [(cmd, o)]) = plan)
    ∧ heap run.2 logs
      = heap w logs
        ++ first_entry present repo_url local_dir
           :: match l with
              | [] => []
              | _ :: _ => [later_entry branch commit_hash]
              end
    ∧ (∀ l', l' ≠ logs → heap run.2 l' = heap w l')
    ∧ console run.2 = console w ∧ posted run.2 = posted w.
Proof.
  intros run plan Hp. subst run plan.
  unfold deployment.clone_or_update_repo.
  rewrite bind_run, (path_exists_run _ _ _ Hp). cbv beta iota.
  rewrite bind_run.
  unfold first_command, first_entry, later_commands, later_entry,
    checkout_target, truthy_opt.
  destruct present; cbv beta iota delta [negb].
  all: sync_log; sync_command; sync_look.
  all: try solve [sync_leaf].
  all: destruct commit_hash as [h|]; [destruct (str.truthy h) eqn:Hh |].
  all: sync_log; rewrite ?bind_run; sync_command; sync_look.
  all: try solve [sync_leaf].
  all: sync_command.
  all: solve [sync_leaf].
Qed.

End SynchronizerRuns.

Lemma path_exists_total (p : string) (w : world) :
  ∃ b, (os.path_exists p w).1 = Ok b.
Proof. unfold os.path_exists. cbn. by eauto. Qed.

Lemma command_result_success `{Library} (command : list string) (o : proc_outcome)
    (d : dict) :
  command_result command o = Ok d →
  dict_get "success" d = Some (VBool (succeeded o)).
Proof.
  destruct o as [rc out err | | | |]; cbn [command_result succeeded]; [| done ..].
  destruct (rc =? 0); by intros [= <-].
Qed.

Lemma later_commands_length (branch : string) (commit_hash : option string)
    (local_dir : string) :
  (1 ≤ length (later_commands branch commit_hash local_dir) ≤ 2)%nat.
Proof. unfold later_commands. destruct (truthy_opt commit_hash); cbn; lia. Qed.

Section SynchronizerMore.
Context `{Library}.

(** X3: the synchroniser stops at the first process that does not
    succeed.  Of the processes it starts, all but the last one succeeded,
    and what it returns or raises is what [execute_command] gave for the
    last one. *)
Theorem result_of_last_command (repo_url branch : string)
    (commit_hash : option string) (local_dir : string) (logs : loc) (w : world) :
  let run := deployment.clone_or_update_repo repo_url branch commit_hash
               local_dir logs w in
  ∃ l cmd o,
    issued w run.2 = l ++ [(cmd, o)]
    ∧ Forall (λ e, succeeded e.2 = true) l
    ∧ run.1 = command_result cmd o.
Proof.
  intros run. destruct (path_exists_total local_dir w) as [present Hp].
  destruct (sync_run repo_url branch commit_hash local_dir logs w present Hp)
    as (l & cmd & o & Hissued & Hres & Hall & _).
  by exists l, cmd, o.
Qed.

(** X4: the commands started are never out of order and never more than
    three: they are an initial part, at least the first command, of the
    clone or the fetch, the checkout and, when no commit hash is given, the
    pull. *)
Theorem commands_follow_the_plan (repo_url branch : string)
    (commit_hash : option string) (local_dir : string) (logs : loc) (w : world)
    (present : bool) :
  let run := deployment.clone_or_update_repo repo_url branch commit_hash
               local_dir logs w in
  (os.path_exists local_dir w).1 = Ok present →
  ∃ rest,
    map fst (issued w run.2)
    = first_command present repo_url branch local_dir :: rest
    ∧ rest `prefix_of` later_commands branch commit_hash local_dir
    ∧ (length (issued w run.2) ≤ 3)%nat.
Proof.
  intros run Hp.
  destruct (sync_run repo_url branch commit_hash local_dir logs w present Hp)
    as (l & cmd & o & Hissued & _ & _ & Hprefix & _).
  fold run in Hissued. rewrite Hissued.
  destruct Hprefix as [k Hk].
  destruct (map fst (l ++ [(cmd, o)])) as [|c rest] eqn:Hmap.
  { apply (f_equal length) in Hmap. rewrite length_map, length_app in Hmap.
    cbn in Hmap. lia. }
  cbn [app] in Hk. injection Hk as <- Hk.
  exists rest. split; [done |]. split; [by exists k |].
  apply (f_equal length) in Hmap, Hk.
  rewrite length_map in Hmap. rewrite length_app in Hk. cbn [length] in Hmap.
  pose proof (later_commands_length branch commit_hash local_dir). lia.
Qed.

(** X5: a successful result means that every command of the plan was run
    and succeeded: the clone or the fetch, then the checkout of the commit
    hash, or the checkout of the branch and the pull. *)
Theorem success_means_all_ran (repo_url branch : string)
    (commit_hash : option string) (local_dir : string) (logs : loc) (w : world)
    (present : bool) (d : dict) :
  let run := deployment.clone_or_update_repo repo_url branch commit_hash
               local_dir logs w in
  (os.path_exists local_dir w).1 = Ok present →
  run.1 = Ok d →
  dict_get "success" d = Some (VBool true) →
  map fst (issued w run.2)
  = first_command present repo_url branch local_dir
    :: later_commands branch commit_hash local_dir
  ∧ Forall (λ e, succeeded e.2 = true) (issued w run.2).
Proof.
  intros run Hp Hd Hsuccess.
  destruct (sync_run repo_url branch commit_hash local_dir logs w present Hp)
    as (l & cmd & o & Hissued & Hres & Hall & _ & Hfull & _).
  fold run in Hissued, Hres. rewrite Hd in Hres. symmetry in Hres.
  apply command_result_success in Hres. rewrite Hsuccess in Hres.
  injection Hres as Ho. symmetry in Ho.
  rewrite Hissued. split; [by apply Hfull |].
  apply Forall_app. split; [done |]. by repeat constructor.
Qed.

(** X6: the log gets the entry of the first command, and the entry of the
    checkout stage exactly when the first command succeeded; no other list
    object, and nothing on the console, changes. *)
Theorem log_entries_of_a_run (repo_url branch : string)
    (commit_hash : option string) (local_dir : string) (logs : loc) (w : world)
    (present : bool) :
  let run := deployment.clone_or_update_repo repo_url branch commit_hash
               local_dir logs w in
  (os.path_exists local_dir w).1 = Ok present →
  ∃ o rest,
    issued w run.2 = (first_command present repo_url branch local_dir, o) :: rest
    ∧ heap run.2 logs
      = heap w logs
        ++ first_entry present repo_url local_dir
           :: (if succeeded o then [later_entry branch commit_hash] else [])
    ∧ (∀ l', l' ≠ logs → heap run.2 l' = heap w l')
    ∧ console run.2 = console w.
Proof.
  intros run Hp.
  destruct (sync_run repo_url branch commit_hash local_dir logs w present Hp)
    as (l & cmd & o & Hissued & _ & Hall & Hprefix & Hfull & Hheap & Hother
        & Hconsole & _).
  fold run in Hissued, Hheap, Hother, Hconsole.
  destruct l as [|[c1 o1] l].
  - exists o, []. cbn [app] in *. destruct Hprefix as [k Hk].
    cbn [map fst app] in Hk. injection Hk as <- Hk.
    split; [done |]. split; [| done].
    destruct (succeeded o) eqn:Ho; [| done].
    specialize (Hfull eq_refl). cbn [map fst] in Hfull.
    injection Hfull as Hfull.
    pose proof (later_commands_length branch commit_hash local_dir) as Hlen.
    rewrite <- Hfull in Hlen. cbn in Hlen. lia.
  - exists o1, (l ++ [(cmd, o)]). destruct Hprefix as [k Hk].
    cbn [map fst app] in Hk. injection Hk as <- Hk.
    apply Forall_cons in Hall as [Ho1 _]. cbn [snd] in Ho1.
    rewrite Ho1. by rewrite Hissued.
Qed.

End SynchronizerMore.

Lemma commands_follow_the_plan_witness :
  ∃ rest,
    map fst
      (issued (demo_world 1 "" "fatal" (Raise (OSError "")))
         (@deployment.clone_or_update_repo demo_library "url" "main" None "./new"
            0%nat (demo_world 1 "" "fatal" (Raise (OSError "")))).2)
    = ["git"; "clone"; "-b"; "main"; "url"; "./new"] :: rest.
Proof.
  destruct (@commands_follow_the_plan demo_library "url" "main" None "./new" 0%nat
              (demo_world 1 "" "fatal" (Raise (OSError ""))) false)
    as (rest & Hmap & _).
  - reflexivity.
  - exists rest. exact Hmap.
Defined.

Lemma success_means_all_ran_witness :
  map fst
    (issued (demo_world 0 "ok" "" (Raise (OSError "")))
       (@deployment.clone_or_update_repo demo_library "url" "main" (Some "abc")
          "./test" 0%nat (demo_world 0 "ok" "" (Raise (OSError "")))).2)
  = [["git"; "-C"; "./test"; "fetch"]; ["git"; "-C"; "./test"; "checkout"; "abc"]].
Proof.
  apply (@success_means_all_ran demo_library "url" "main" (Some "abc") "./test"
           0%nat (demo_world 0 "ok" "" (Raise (OSError ""))) true
           [("success", VBool true); ("output", VStr "ok")]).
  - reflexivity.
  - reflexivity.
  - reflexivity.
Defined.

Lemma log_entries_of_a_run_witness :
  ∃ o rest,
    issued (demo_world 0 "" "" (Raise (OSError "")))
      (@deployment.clone_or_update_repo demo_library "url" "main" None "./test"
         0%nat (demo_world 0 "" "" (Raise (OSError "")))).2
    = (["git"; "-C"; "./test"; "fetch"], o) :: rest
    ∧ heap (@deployment.clone_or_update_repo demo_library "url" "main" None "./test"
              0%nat (demo_world 0 "" "" (Raise (OSError "")))).2 0%nat
      = "Repository already exists. Fetching latest changes."
        :: (if succeeded o then ["Pulling latest commit from branch main"] else []).
Proof.
  destruct (@log_entries_of_a_run demo_library "url" "main" None "./test" 0%nat
              (demo_world 0 "" "" (Raise (OSError ""))) true)
    as (o & rest & Hissued & Hheap & _).
  - reflexivity.
  - exists o, rest. split; [exact Hissued | exact Hheap].
Defined.

(** ** What a computation leaves alone *)

Lemma preserves_ret {A B} (part : world → B) (a : A) : preserves part (ret a).
Proof. intros w. reflexivity. Qed.

Lemma preserves_raise {A B} (part : world → B) (e : exn) :
  preserves part (@raise A e).
Proof. intros w. reflexivity. Qed.

Lemma preserves_bind {A A' B} (part : world → B) (m : M A) (k : A → M A') :
  preserves part m → (∀ a, preserves part (k a)) → preserves part (bind m k).
Proof.
  intros Hm Hk w. unfold bind. specialize (Hm w).
  destruct (m w) as [[a | e] w1]; cbn [snd] in *; [| done].
  by rewrite Hk.
Qed.

Lemma preserves_try_except {A B} (part : world → B) (m : M A)
    (handler : exn → option (M A)) :
  preserves part m → (∀ e h, handler e = Some h → preserves part h) →
  preserves part (try_except m handler).
Proof.
  intros Hm Hh w. unfold try_except. specialize (Hm w).
  destruct (m w) as [[a | e] w1]; cbn [snd] in *; [done |].
  destruct (handler e) as [h|] eqn:He; [| done].
  by rewrite (Hh e h He).
Qed.

Lemma preserves_for_each {A B} (part : world → B) (xs : list A)
    (body : A → M unit) :
  (∀ x, preserves part (body x)) → preserves part (for_each xs body).
Proof.
  intros Hbody. induction xs as [|x xs IH]; cbn [for_each].
  - apply preserves_ret.
  - apply preserves_bind; [apply Hbody | intros _; exact IH].
Qed.

Lemma preserves_print {B} (part : world → B) (s : string) :
  (∀ l w, part (with_console l w) = part w) → preserves part (builtins.print s).
Proof. intros Hpart w. apply Hpart. Qed.

Lemma preserves_list_append {B} (part : world → B) (l : loc) (x : string) :
  (∀ h w, part (with_heap h w) = part w) →
  preserves part (builtins.list_append l x).
Proof. intros Hpart w. apply Hpart. Qed.

Lemma preserves_post {B} (part : world → B) (url : string) (payload : json_value) :
  (∀ l w, part (with_posted l w) = part w) →
  preserves part (requests.post url payload).
Proof.
  intros Hpart w. rewrite post_run.
  destruct (network w (posted w) url payload); apply Hpart.
Qed.

Lemma preserves_json {B} (part : world → B) (r : response) :
  preserves part (requests.json r).
Proof.
  unfold requests.json.
  destruct (json_result r); [apply preserves_ret | apply preserves_raise].
Qed.

Lemma preserves_getenv {B} (part : world → B) (key : string) :
  preserves part (os.getenv key).
Proof. intros w. reflexivity. Qed.

Lemma preserves_path_exists {B} (part : world → B) (p : string) :
  preserves part (os.path_exists p).
Proof. intros w. reflexivity. Qed.

Lemma preserves_walk {B} (part : world → B) (top : string) :
  preserves part (os.walk top).
Proof. intros w. reflexivity. Qed.

Lemma preserves_read_text {B} (part : world → B) (path : string) :
  preserves part (io.read_text path).
Proof.
  intros w. unfold io.read_text.
  destruct (vfs.resolve path) as [cs|]; [| done].
  destruct (os.reaches w cs); [| done].
  destruct (vfs.file_at cs (fs w)) as [[m d]|]; [| done].
  by destruct (permits w R_OK cs m).
Qed.

Lemma preserves_chmod {B} (part : world → B) (path : string) (mode : Z) :
  (∀ f w, part (with_fs f w) = part w) → preserves part (os.chmod path mode).
Proof.
  intros Hpart w.
  destruct (chmod_cases path mode w) as [(cs & n' & _ & _ & _ & _ & ->) | [msg ->]];
    [apply Hpart | done].
Qed.

Lemma preserves_write {B} (part : world → B) (f : io.file) (s : string) :
  (∀ f w, part (with_fs f w) = part w) → preserves part (io.write f s).
Proof.
  intros Hpart w. unfold io.write.
  destruct (vfs.alter_at _ f (fs w)); [apply Hpart | done].
Qed.

Lemma preserves_opened {B} (part : world → B) (cs : list string) (f' : node)
    (w : world) :
  (∀ f w, part (with_fs f w) = part w) →
  (∀ c w, part (with_class c w) = part w) →
  part (io.opened cs f' w) = part w.
Proof.
  intros Hfs Hclass. unfold io.opened.
  destruct (vfs.file_at cs (fs w)); by rewrite ?Hclass, Hfs.
Qed.

Lemma preserves_with_open_w {A B} (part : world → B) (path : string)
    (body : io.file → M A) :
  (∀ f w, part (with_fs f w) = part w) →
  (∀ c w, part (with_class c w) = part w) →
  (∀ f, preserves part (body f)) →
  preserves part (io.with_open_w path body).
Proof.
  intros Hpart Hclass Hbody. unfold io.with_open_w. apply preserves_bind.
  - intros w. unfold io.open_w.
    destruct (vfs.resolve path) as [cs|]; [| done].
    destruct (rev cs) as [|name rparent]; [done |].
    destruct (os.reaches w cs); [| done].
    destruct (vfs.alter_at _ _ (fs w)); [by apply preserves_opened | done].
  - intros f w. specialize (Hbody f w).
    by destruct (body f w) as [[a | e] w1].
Qed.

Lemma preserves_config_getitem {B} (part : world → B) (c : config) (key : string) :
  preserves part (config_getitem c key).
Proof.
  unfold config_getitem.
  destruct (scalars c !! key); [apply preserves_ret | apply preserves_raise].
Qed.

(** Goes through the text of a function, statement by statement. *)
Ltac preserves_tac :=
  repeat first
    [ apply preserves_ret
    | apply preserves_raise
    | apply preserves_with_open_w; [reflexivity | reflexivity | intros ?]
    | apply preserves_bind; [| intros ?]
    | apply preserves_for_each; intros ?
    | apply preserves_try_except; [| intros ? ? ?]
    | apply preserves_print; reflexivity
    | apply preserves_list_append; reflexivity
    | apply preserves_post; reflexivity
    | apply preserves_json
    | apply preserves_getenv
    | apply preserves_path_exists
    | apply preserves_walk
    | apply preserves_read_text
    | apply preserves_config_getitem
    | apply preserves_chmod; reflexivity
    | apply preserves_write; reflexivity
    | match goal with
      | He : match ?e with _ => _ end = Some _ |- _ =>
          destruct e; try discriminate He; injection He as <-
      | |- preserves _ (if ?b then _ else _) => destruct b
      | |- preserves _ (match ?x with _ => _ end) => destruct x
      end ].

(** ** The deployment reporter, whatever the server does *)

Section ReporterMore.
Context `{Library}.

Lemma deploy_repo_preserves {B} (part : world → B) (username : option string)
    (server_url repo_url branch : string) (commit_hash : option string)
    (local_dir exclude_ext : string) :
  (∀ l w, part (with_console l w) = part w) →
  (∀ l w, part (with_posted l w) = part w) →
  preserves part (deployment.deploy_repo username server_url repo_url branch
                    commit_hash local_dir exclude_ext).
Proof.
  intros Hconsole Hposted. unfold deployment.deploy_repo. cbv zeta.
  repeat first
    [ apply preserves_bind; [| intros ?]
    | apply preserves_try_except; [| intros ? ? ?]
    | apply preserves_print; exact Hconsole
    | apply preserves_post; exact Hposted
    | apply preserves_json
    | match goal with
      | He : match ?e with _ => _ end = Some _ |- _ =>
          destruct e; try discriminate He; injection He as <-
      | |- preserves _ (if ?b then _ else _) => destruct b
      end ].
Qed.

(** X7: however the exchange ends, [deploy_repo] sends exactly one
    request: a POST to [server_url/deploy] whose body holds the six fields,
    an absent user name or commit hash being sent as null.  It starts no
    process and changes neither a file nor a list object. *)
Theorem deploy_repo_one_request (username : option string)
    (server_url repo_url branch : string) (commit_hash : option string)
    (local_dir exclude_ext : string) (w : world) :
  let run := deployment.deploy_repo username server_url repo_url branch
               commit_hash local_dir exclude_ext w in
  posted run.2
  = posted w ++ [(server_url +:+ "/deploy",
                  deploy_payload username repo_url branch commit_hash
                    local_dir exclude_ext)]
  ∧ spawned run.2 = spawned w ∧ fs run.2 = fs w ∧ heap run.2 = heap w.
Proof.
  intros run. split.
  - subst run. unfold deployment.deploy_repo, try_except.
    rewrite bind_run, post_run. fold (deploy_payload username repo_url branch
      commit_hash local_dir exclude_ext).
    destruct (network w (posted w) _ _) as [r | e].
    + rewrite bind_run. unfold requests.json.
      destruct (json_result r) as [j | e]; cbn [ret raise].
      * rewrite bind_run. by destruct (status_code r =? 200).
      * by destruct e.
    + by destruct e.
  - split; [| split]; by apply deploy_repo_preserves.
Qed.

(** X8: a response whose body cannot be decoded, the decoding error being
    a [RequestException] as in the current requests library, is reported
    like a network failure, whatever the status code: the error line is
    printed, neither the success nor the failure line, and nothing is
    raised. *)
Theorem undecodable_body_reported (username : option string)
    (server_url repo_url branch : string) (commit_hash : option string)
    (local_dir exclude_ext : string) (w : world) (r : response) (msg : string) :
  let run := deployment.deploy_repo username server_url repo_url branch
               commit_hash local_dir exclude_ext w in
  network w (posted w) (server_url +:+ "/deploy")
    (deploy_payload username repo_url branch commit_hash local_dir exclude_ext)
  = Ok r →
  json_result r = Raise (RequestException msg) →
  run.1 = Ok tt ∧ console run.2 = console w ++ ["Error: " +:+ msg].
Proof.
  intros run Hreply Hjson. subst run.
  unfold deployment.deploy_repo, try_except.
  rewrite bind_run, post_run. fold (deploy_payload username repo_url branch
    commit_hash local_dir exclude_ext). rewrite Hreply.
  rewrite bind_run. unfold requests.json. rewrite Hjson. by cbn.
Qed.

(** X9: an exception that is not a [RequestException], raised by the POST
    or by the decoding of the body, is not caught: it leaves [deploy_repo]
    and nothing has been printed. *)
Theorem other_exceptions_escape (username : option string)
    (server_url repo_url branch : string) (commit_hash : option string)
    (local_dir exclude_ext : string) (w : world) (e : exn) :
  let run := deployment.deploy_repo username server_url repo_url branch
               commit_hash local_dir exclude_ext w in
  let reply := network w (posted w) (server_url +:+ "/deploy")
                 (deploy_payload username repo_url branch commit_hash
                    local_dir exclude_ext) in
  reply = Raise e ∨ (∃ r, reply = Ok r ∧ json_result r = Raise e) →
  (∀ msg, e ≠ RequestException msg) →
  run.1 = Raise e ∧ console run.2 = console w.
Proof.
  intros run reply Hreply He. subst run reply.
  unfold deployment.deploy_repo, try_except.
  rewrite bind_run, post_run. fold (deploy_payload username repo_url branch
    commit_hash local_dir exclude_ext).
  destruct Hreply as [-> | (r & -> & Hjson)].
  - destruct e; try done. by destruct (He msg).
  - rewrite bind_run. unfold requests.json. rewrite Hjson. cbn [raise].
    destruct e; try done. by destruct (He msg).
Qed.

End ReporterMore.

Lemma undecodable_body_reported_witness :
  console (@deployment.deploy_repo demo_library (Some "alice")
             "http://localhost:9000" "url" "main" None "./test" ".ipynb"
             (demo_world 0 "" ""
                (Ok (Response 200 (Raise (RequestException "Expecting value")))))).2
  = ["Error: Expecting value"].
Proof.
  apply (@undecodable_body_reported demo_library (Some "alice")
           "http://localhost:9000" "url" "main" None "./test" ".ipynb"
           (demo_world 0 "" ""
              (Ok (Response 200 (Raise (RequestException "Expecting value")))))
           (Response 200 (Raise (RequestException "Expecting value")))
           "Expecting value" eq_refl eq_refl).
Defined.

Lemma other_exceptions_escape_witness :
  (@deployment.deploy_repo demo_library (Some "alice")
     "http://localhost:9000" "url" "main" None "./test" ".ipynb"
     (demo_world 0 "" "" (Ok (Response 200 (Raise (ValueError "Expecting value")))))).1
  = Raise (ValueError "Expecting value").
Proof.
  apply (@other_exceptions_escape demo_library (Some "alice")
           "http://localhost:9000" "url" "main" None "./test" ".ipynb"
           (demo_world 0 "" "" (Ok (Response 200 (Raise (ValueError "Expecting value")))))
           (ValueError "Expecting value")).
  - right. eexists. split; reflexivity.
  - discriminate.
Defined.

(** ** The permission sweeps, beyond the modes they set *)



(** X11: where the process has the permissions the sweep asks for, the
    read-only sweep appends one log entry for each file it changes the
    mode of, in the order of the walk: for every triple of the walk, the
    files whose name does not end with the extension, each as
    [Set <path> to read-only.] with the path joined from the root of the
    triple and the name. *)
Theorem read_only_sweep_log (local_dir exclude_ext : string) (logs : loc)
    (w : world) (top : list string) :
  vfs.wf (fs w) = true →
  vfs.resolve local_dir = Some top →
  can_sweep w (λ f, str.endswith f exclude_ext) top = true →
  ∃ w' triples,
    (os.walk local_dir w).1 = Ok triples
    ∧ deployment.set_permission_readonly local_dir exclude_ext logs w = (Ok tt, w')
    ∧ heap w' logs
      = heap w logs
        ++ map (λ s, "Set " +:+ s +:+ " to read-only.")
             (sweep_targets (λ f, str.endswith f exclude_ext) triples).
Proof.
  intros Hwf Hres Hcan.
  destruct (sweep_run (λ f, str.endswith f exclude_ext) o444
              (λ s, "Set " +:+ s +:+ " to read-only.") local_dir logs w top
              Hwf Hres Hcan)
    as (w' & triples & Hwalk & Hrun & _ & Hheap & _).
  by exists w', triples.
Qed.

Lemma read_only_sweep_log_witness :
  ∃ w',
    deployment.set_permission_readonly "./test" ".ipynb" 0%nat
      (demo_world 0 "" "" (Raise (OSError ""))) = (Ok tt, w')
    ∧ heap w' 0%nat
      = ["Set ./test/a.txt to read-only."; "Set ./test/sub/c.py to read-only."].
Proof.
  destruct (read_only_sweep_log "./test" ".ipynb" 0%nat
              (demo_world 0 "" "" (Raise (OSError ""))) ["test"])
    as (w' & triples & Hwalk & Hrun & Hheap).
  - reflexivity.
  - reflexivity.
  - reflexivity.
  - exists w'. split; [exact Hrun |]. rewrite Hheap.
    injection Hwalk as <-. reflexivity.
Defined.







(** X15: where the process has the permissions the sweep asks for, the
    read-only sweep is idempotent on the files below [local_dir]: a second
    sweep ends without an error too and leaves every such file with the
    mode and the contents the first one left. *)
Theorem read_only_sweep_idempotent (local_dir exclude_ext : string)
    (logs : loc) (w : world) (top : list string) :
  vfs.wf (fs w) = true →
  vfs.resolve local_dir = Some top →
  can_sweep w (λ f, str.endswith f exclude_ext) top = true →
  ∃ w1 w2,
    deployment.set_permission_readonly local_dir exclude_ext logs w = (Ok tt, w1)
    ∧ deployment.set_permission_readonly local_dir exclude_ext logs w1 = (Ok tt, w2)
    ∧ ∀ q name,
        vfs.file_at (top ++ q ++ [name]) (fs w2)
        = vfs.file_at (top ++ q ++ [name]) (fs w1).
Proof.
  intros Hwf Hres Hcan.
  destruct (sweep_run (λ f, str.endswith f exclude_ext) o444
              (λ s, "Set " +:+ s +:+ " to read-only.") local_dir logs w top
              Hwf Hres Hcan)
    as (w1 & _ & _ & Hrun1 & Hfiles1 & _ & Hview1).
  assert (Hwf1 : vfs.wf (fs w1) = true).
  { destruct Hview1 as (Hforget1 & _). by rewrite <- wf_forget, Hforget1, wf_forget. }
  assert (Hcan1 : can_sweep w1 (λ f, str.endswith f exclude_ext) top = true).
  { by rewrite (can_sweep_same_view w w1 _ top Hview1). }
  destruct (sweep_run (λ f, str.endswith f exclude_ext) o444
              (λ s, "Set " +:+ s +:+ " to read-only.") local_dir logs w1 top
              Hwf1 Hres Hcan1)
    as (w2 & _ & _ & Hrun2 & Hfiles2 & _ & Hview2).
  exists w1, w2. split; [done |]. split; [done |].
  intros q name.
  destruct (vfs.file_at (top ++ q ++ [name]) (fs w)) as [[m d]|] eqn:Hfile.
  - pose proof (Hfiles1 q name m d Hfile) as H1.
    rewrite (Hfiles2 q name _ d H1), H1.
    by destruct (str.endswith name exclude_ext).
  - assert (Hnone : ∀ n n', vfs.forget_file_modes n' = vfs.forget_file_modes n →
                            vfs.file_at (top ++ q ++ [name]) n = None →
                            vfs.file_at (top ++ q ++ [name]) n' = None).
    { intros n n' Hforget Hn.
      pose proof (file_at_forget (top ++ q ++ [name]) n') as Hn'.
      rewrite Hforget, file_at_forget, Hn in Hn'.
      by destruct (vfs.file_at (top ++ q ++ [name]) n'). }
    destruct Hview1 as (Hforget1 & _). destruct Hview2 as (Hforget2 & _).
    pose proof (Hnone _ _ Hforget1 Hfile) as H1.
    by rewrite H1, (Hnone _ _ Hforget2 H1).
Qed.

Lemma read_only_sweep_idempotent_witness :
  ∃ w1 w2,
    deployment.set_permission_readonly "./test" ".ipynb" 0%nat
      (demo_world 0 "" "" (Raise (OSError ""))) = (Ok tt, w1)
    ∧ deployment.set_permission_readonly "./test" ".ipynb" 0%nat w1 = (Ok tt, w2)
    ∧ vfs.file_at ["test"; "a.txt"] (fs w2) = vfs.file_at ["test"; "a.txt"] (fs w1).
Proof.
  destruct (read_only_sweep_idempotent "./test" ".ipynb" 0%nat
              (demo_world 0 "" "" (Raise (OSError ""))) ["test"])
    as (w1 & w2 & Hrun1 & Hrun2 & Hsame).
  - reflexivity.
  - reflexivity.
  - reflexivity.
  - exists w1, w2. split; [exact Hrun1 |]. split; [exact Hrun2 |].
    exact (Hsame [] "a.txt").
Defined.

(** ** The environment file, beyond its contents *)










Lemma create_env_file_preserves {B} (part : world → B) (local_dir : string)
    (env_config : list (string * string)) :
  (∀ l w, part (with_console l w) = part w) →
  (∀ f w, part (with_fs f w) = part w) →
  (∀ c w, part (with_class c w) = part w) →
  preserves part (deployment.create_env_file local_dir env_config).
Proof.
  intros Hconsole Hfs Hclass. unfold deployment.create_env_file. cbv zeta.
  repeat first
    [ apply preserves_with_open_w; [exact Hfs | exact Hclass | intros ?]
    | apply preserves_bind; [| intros ?]
    | apply preserves_for_each; intros ?
    | apply preserves_print; exact Hconsole
    | apply preserves_write; exact Hfs
    | match goal with
      | |- preserves _ (match ?x with _ => _ end) => destruct x
      end ].
Qed.





(** X18: where the process may write the file, the file written, read
    back line by line, has exactly one line per entry of the mapping, in
    the order of the mapping, and ends with a line feed, provided no key
    and no value holds a line feed itself. *)
Theorem env_file_line_per_entry (local_dir : string)
    (env_config : list (string * string)) (w : world) (top : list string) :
  vfs.resolve local_dir = Some top →
  can_write_in w top ".env" = true →
  Forall (λ kv, str.contains (ascii_of_nat 10) kv.1 = false
                ∧ str.contains (ascii_of_nat 10) kv.2 = false) env_config →
  ∃ w' m' text,
    deployment.create_env_file local_dir env_config w = (Ok tt, w')
    ∧ vfs.file_at (top ++ [".env"]) (fs w') = Some (m', text)
    ∧ str.split (ascii_of_nat 10) text
      = map (λ kv, kv.1 +:+ " = '" +:+ kv.2 +:+ "'") env_config ++ [""].
Proof.
  intros Hres Hcan Hlf.
  destruct (create_env_file_run local_dir env_config w top Hres Hcan)
    as (w' & m' & Hrun & Hfile & _).
  exists w', m', (concat_lines (map env_line env_config)).
  split; [done |]. split; [done |]. by apply env_file_lines.
Qed.

Lemma env_file_line_per_entry_witness :
  ∃ w' m' text,
    deployment.create_env_file "./test" [("KEY", "value"); ("A", "b")]
      (demo_world 0 "" "" (Raise (OSError ""))) = (Ok tt, w')
    ∧ vfs.file_at ["test"; ".env"] (fs w') = Some (m', text)
    ∧ str.split (ascii_of_nat 10) text = ["KEY = 'value'"; "A = 'b'"; ""].
Proof.
  apply (env_file_line_per_entry "./test" [("KEY", "value"); ("A", "b")]
           (demo_world 0 "" "" (Raise (OSError ""))) ["test"]).
  - reflexivity.
  - reflexivity.
  - repeat constructor.
Defined.

(** ** The configuration and the entry flow *)

Lemma get_username_run (w : world) :
  ∃ u, deployment.get_username w = (Ok u, w).
Proof.
  unfold deployment.get_username. rewrite bind_run. cbn [os.getenv].
  destruct (truthy_opt (environ w !! "USERNAME")); by eauto.
Qed.


Lemma deploy_repo_one_request_posted `{Library} (username : option string)
    (server_url repo_url branch : string) (commit_hash : option string)
    (local_dir exclude_ext : string) (w : world) :
  posted (deployment.deploy_repo username server_url repo_url branch
            commit_hash local_dir exclude_ext w).2
  = posted w ++ [(server_url +:+ "/deploy",
                  deploy_payload username repo_url branch commit_hash
                    local_dir exclude_ext)].
Proof.
  unfold deployment.deploy_repo, try_except.
  rewrite bind_run, post_run. fold (deploy_payload username repo_url branch
    commit_hash local_dir exclude_ext).
  destruct (network w (posted w) _ _) as [r | e].
  - rewrite bind_run. unfold requests.json.
    destruct (json_result r) as [j | e]; cbn [ret raise].
    + rewrite bind_run. by destruct (status_code r =? 200).
    + by destruct e.
  - by destruct e.
Qed.

Section EntryFlow.
Context `{Library} `{YamlLibrary}.

Lemma load_config_world (config_path : string) (w : world) :
  (deployment.load_config config_path w).2 = w.
Proof.
  unfold deployment.load_config. rewrite bind_run. cbn [os.path_exists].
  destruct (negb _); [done |]. rewrite bind_run.
  pose proof (preserves_read_text id config_path w) as Hread. unfold id in Hread.
  destruct (io.read_text config_path w) as [[text | e] w1]; cbn [snd] in *;
    subst w1; [| done].
  by destruct (yaml_safe_load text).
Qed.

Lemma load_config_run (config_path : string) (w : world) :
  deployment.load_config config_path w
  = ((deployment.load_config config_path w).1, w).
Proof.
  rewrite <- (load_config_world config_path w) at 3.
  by destruct (deployment.load_config config_path w).
Qed.

Lemma main_preserves {B} (part : world → B) :
  (∀ l w, part (with_console l w) = part w) →
  (∀ l w, part (with_posted l w) = part w) →
  (∀ f w, part (with_fs f w) = part w) →
  (∀ c w, part (with_class c w) = part w) →
  preserves part deployment.main.
Proof.
  intros Hconsole Hposted Hfs Hclass. unfold deployment.main. cbv zeta.
  apply preserves_bind.
  { intros w. destruct (get_username_run w) as [u ->]. done. }
  intros username. apply preserves_bind.
  { intros w. by rewrite load_config_world. }
  intros c. apply preserves_bind; [apply preserves_config_getitem |].
  intros repo_url. apply preserves_bind.
  { by apply deploy_repo_preserves. }
  intros _. destruct (env_section c) as [env|].
  - by apply create_env_file_preserves.
  - apply preserves_ret.
Qed.

(** X19: without the configuration file nothing happens.  [load_config]
    raises the error that names the path it was given, and the entry flow
    ends with that error for [deployment.yaml]: no request has been sent,
    nothing printed, no file written. *)
Theorem missing_configuration (config_path : string) (w : world) :
  (os.path_exists config_path w).1 = Ok false →
  deployment.load_config config_path w
  = (Raise (OSError ("Configuration file " +:+ config_path +:+ " not found.")), w)
  ∧ (config_path = "deployment.yaml" →
     deployment.main w
     = (Raise (OSError "Configuration file deployment.yaml not found."), w)).
Proof.
  intros Hp.
  assert (Hload : deployment.load_config config_path w
                  = (Raise (OSError ("Configuration file " +:+ config_path
                                     +:+ " not found.")), w)).
  { unfold deployment.load_config.
    by rewrite bind_run, (path_exists_run _ _ _ Hp). }
  split; [exact Hload |]. intros ->.
  unfold deployment.main. destruct (get_username_run w) as [u Hu].
  by rewrite bind_run, Hu, bind_run, Hload.
Qed.

(** X20: a configuration without [repo_url] stops the entry flow with a
    [KeyError] for that key before anything is sent, printed or written:
    the key is looked up while the arguments of [deploy_repo] are
    evaluated. *)
Theorem missing_repo_url (w : world) (c : config) :
  (deployment.load_config "deployment.yaml" w).1 = Ok c →
  scalars c !! "repo_url" = None →
  deployment.main w = (Raise (KeyError "repo_url"), w).
Proof.
  intros Hload Hurl. unfold deployment.main.
  destruct (get_username_run w) as [u Hu].
  rewrite bind_run, Hu, bind_run, load_config_run, Hload. cbv beta iota zeta.
  rewrite bind_run. unfold config_getitem. by rewrite Hurl.
Qed.

(** X21: with a configuration that has a [repo_url], the entry flow sends
    exactly one request, to [http://localhost:9000/deploy]; its body
    carries the user name found in the environment, the repository URL and
    the commit hash of the configuration, and for the branch, the
    directory and the extension the configured value or else [main],
    [./test] and [.ipynb]. *)
Theorem entry_flow_request (w : world) (c : config) (repo_url : string) :
  (deployment.load_config "deployment.yaml" w).1 = Ok c →
  scalars c !! "repo_url" = Some repo_url →
  ∃ username,
    (deployment.get_username w).1 = Ok username
    ∧ posted (deployment.main w).2
      = posted w
        ++ [("http://localhost:9000/deploy",
             deploy_payload username repo_url
               (config_get c "branch" "main")
               (scalars c !! "commit_hash")
               (config_get c "local_dir" "./test")
               (config_get c "exclude_ext" ".ipynb"))].
Proof.
  intros Hload Hurl. destruct (get_username_run w) as [u Hu].
  exists u. split; [by rewrite Hu |].
  unfold deployment.main.
  rewrite bind_run, Hu, bind_run, load_config_run, Hload. cbv beta iota zeta.
  rewrite bind_run. unfold config_getitem. rewrite Hurl. cbn [ret].
  rewrite bind_run.
  pose proof (deploy_repo_one_request_posted u "http://localhost:9000" repo_url
                (config_get c "branch" "main") (scalars c !! "commit_hash")
                (config_get c "local_dir" "./test")
                (config_get c "exclude_ext" ".ipynb") w) as Hposted.
  change ("http://localhost:9000" +:+ "/deploy")
    with "http://localhost:9000/deploy" in Hposted.
  destruct (deployment.deploy_repo _ _ _ _ _ _ _ w) as [[[] | e] w1];
    cbn [snd] in Hposted; [| done].
  destruct (env_section c) as [env|]; [| done].
  rewrite <- Hposted. by apply create_env_file_preserves.
Qed.

(** X22: a report that fails on the network does not stop the entry flow.
    The error line is printed, then the environment file of the
    configuration is written into the configured directory, where the
    process may write it, and the flow ends without an error. *)
Theorem env_file_after_failed_report (w : world) (c : config)
    (repo_url msg : string) (env : list (string * string)) (top : list string) :
  (deployment.load_config "deployment.yaml" w).1 = Ok c →
  scalars c !! "repo_url" = Some repo_url →
  env_section c = Some env →
  (∀ url payload, network w (posted w) url payload = Raise (RequestException msg)) →
  vfs.resolve (config_get c "local_dir" "./test") = Some top →
  can_write_in w top ".env" = true →
  ∃ w' m',
    deployment.main w = (Ok tt, w')
    ∧ vfs.file_at (top ++ [".env"]) (fs w')
      = Some (m', concat_lines (map env_line env))
    ∧ console w'
      = console w
        ++ ["Error: " +:+ msg;
            "Creating .env file at "
            +:+ os.path_join (config_get c "local_dir" "./test") ".env"].
Proof.
  intros Hload Hurl Henv Hnet Hres Hcan.
  destruct (get_username_run w) as [u Hu].
  set (w1 := with_console (console w ++ ["Error: " +:+ msg])
               (with_posted
                  (posted w
                   ++ [("http://localhost:9000" +:+ "/deploy",
                        deploy_payload u repo_url (config_get c "branch" "main")
                          (scalars c !! "commit_hash")
                          (config_get c "local_dir" "./test")
                          (config_get c "exclude_ext" ".ipynb"))]) w)).
  assert (Hreport : deployment.deploy_repo u "http://localhost:9000" repo_url
                      (config_get c "branch" "main") (scalars c !! "commit_hash")
                      (config_get c "local_dir" "./test")
                      (config_get c "exclude_ext" ".ipynb") w
                    = (Ok tt, w1)).
  { unfold deployment.deploy_repo, try_except.
    by rewrite bind_run, post_run, Hnet. }
  destruct (create_env_file_run (config_get c "local_dir" "./test") env w1
              top Hres Hcan)
    as (w' & m' & Hrun & Hfile & Hconsole).
  exists w', m'. split; [| split; [exact Hfile |]].
  - unfold deployment.main.
    rewrite bind_run, Hu, bind_run, load_config_run, Hload. cbv beta iota zeta.
    rewrite bind_run. unfold config_getitem. rewrite Hurl. cbn [ret].
    by rewrite bind_run, Hreport, Henv.
  - rewrite Hconsole. cbn [console w1 with_console]. by rewrite <- app_assoc.
Qed.

(** X23: the entry flow never runs the synchroniser or a sweep: however it
    ends, no process has been started and no list object has changed. *)
Theorem entry_flow_starts_no_process (w : world) :
  spawned (deployment.main w).2 = spawned w
  ∧ heap (deployment.main w).2 = heap w.
Proof. split; by apply main_preserves. Qed.

End EntryFlow.

Lemma missing_configuration_witness :
  @deployment.main demo_library demo_yaml (demo_world 0 "" "" (Raise (OSError "")))
  = (Raise (OSError "Configuration file deployment.yaml not found."),
     demo_world 0 "" "" (Raise (OSError ""))).
Proof.
  apply (proj2 (@missing_configuration demo_library demo_yaml "deployment.yaml"
                  (demo_world 0 "" "" (Raise (OSError ""))) eq_refl)).
  reflexivity.
Defined.

Lemma missing_repo_url_witness :
  @deployment.main demo_library demo_yaml
    (demo_configured "no_url" (Raise (OSError "")))
  = (Raise (KeyError "repo_url"), demo_configured "no_url" (Raise (OSError ""))).
Proof.
  apply (@missing_repo_url demo_library demo_yaml
           (demo_configured "no_url" (Raise (OSError "")))
           (Config {[ "branch" := "dev" ]} None)).
  - reflexivity.
  - reflexivity.
Defined.

Lemma entry_flow_request_witness :
  ∃ username,
    posted (@deployment.main demo_library demo_yaml
              (demo_configured "bare" (Raise (RequestException "refused")))).2
    = [("http://localhost:9000/deploy",
        deploy_payload username "url" "main" None "./test" ".ipynb")].
Proof.
  destruct (@entry_flow_request demo_library demo_yaml
              (demo_configured "bare" (Raise (RequestException "refused")))
              (Config {[ "repo_url" := "url" ]} None) "url")
    as (username & _ & Hposted).
  - reflexivity.
  - reflexivity.
  - exists username. exact Hposted.
Defined.

Lemma env_file_after_failed_report_witness :
  ∃ w' m',
    @deployment.main demo_library demo_yaml
      (demo_configured "full" (Raise (RequestException "refused"))) = (Ok tt, w')
    ∧ vfs.file_at ["test"; ".env"] (fs w')
      = Some (m', "KEY = 'value'" +:+ String (ascii_of_nat 10) EmptyString).
Proof.
  destruct (@env_file_after_failed_report demo_library demo_yaml
              (demo_configured "full" (Raise (RequestException "refused")))
              (Config {[ "repo_url" := "url"; "branch" := "dev";
                         "local_dir" := "test" ]}
                      (Some [("KEY", "value")]))
              "url" "refused" [("KEY", "value")] ["test"])
    as (w' & m' & Hrun & Hfile & _).
  - reflexivity.
  - reflexivity.
  - reflexivity.
  - reflexivity.
  - reflexivity.
  - reflexivity.
  - exists w', m'. split; [exact Hrun | exact Hfile].
Defined.
